(** * Fibulopedia: the data loader, the monsters service and the server-info service

    A shallow embedding of [src/services/data_loader.py],
    [src/services/monsters_service.py] and [src/services/server_info_service.py],
    together with the part of the Python run time these modules lean on.

    Conventions of the embedding.
    - A Python object is a [value]: [None], a bool, an int (unbounded, [Z]),
      a float (binary64, a [spec_float]), a str, a list or a dict.  A dict is an
      association list in insertion order.
    - A Python call that may raise is a computation in the error monad [res];
      [try]/[except] is [try_except], which selects on the class of the
      exception the way Python does.
    - A str is a [string]; the functions that consult the Unicode database
      ([str.lower], [int] on a str, [repr] of a str) are given on the ASCII
      range, and characters above it are carried through unchanged.
    - The file system is a finite map from paths to nodes, threaded explicitly.
    - Calls to the logger have no effect on results and are left out, except
      where evaluating their argument can raise.
    - Interpreter resource limits (recursion depth, the digit limit on int
      conversion, memory) are not part of the model. *)

From Stdlib Require Import ZArith Ascii String SpecFloat Lia.
From Stdlib Require Import DecimalString DecimalFacts DecimalPos DecimalN.
From Stdlib Require Import Sorted.
From stdpp Require Import base option list strings gmap.

Local Open Scope string_scope.
Local Open Scope Z_scope.

(** * Exceptions and the error monad *)

Module Exn.

(** The classes of the exception hierarchy that the modelled code can meet. *)
Inductive exn : Set :=
| BaseException
| Exception
| TypeError
| ValueError
| ArithmeticError
| OverflowError
| LookupError
| KeyError
| AttributeError
| OSError
| UnicodeError
| UnicodeDecodeError
| JSONDecodeError.

#[global] Instance exn_eq_dec : EqDecision exn.
Proof. solve_decision. Defined.

(** The direct base class. *)
Definition base_class (e : exn) : option exn :=
  match e with
  | BaseException => None
  | Exception => Some BaseException
  | TypeError | ValueError | ArithmeticError | LookupError
  | AttributeError | OSError => Some Exception
  | OverflowError => Some ArithmeticError
  | KeyError => Some LookupError
  | UnicodeError | JSONDecodeError => Some ValueError
  | UnicodeDecodeError => Some UnicodeError
  end.

Fixpoint subclass_upto (n : nat) (e c : exn) : bool :=
  bool_decide (e = c) ||
  match n, base_class e with
  | S n', Some b => subclass_upto n' b c
  | _, _ => false
  end.

(** [issubclass e c]; the hierarchy above is five levels deep. *)
Definition issubclass (e c : exn) : bool := subclass_upto 5 e c.

Inductive res (A : Type) : Type :=
| Ok (a : A)
| Raise (e : exn).
Arguments Ok {A} a.
Arguments Raise {A} e.

#[global] Instance res_ret : MRet res := fun A a => Ok a.
#[global] Instance res_bind : MBind res := fun A B k m =>
  match m with
  | Ok a => k a
  | Raise e => Raise e
  end.

(** The first [except] clause whose classes cover the exception handles it. *)
Fixpoint handle {A} (e : exn) (clauses : list (list exn * (exn -> res A))) : res A :=
  match clauses with
  | [] => Raise e
  | (classes, handler) :: clauses' =>
      if existsb (issubclass e) classes then handler e else handle e clauses'
  end.

(** [try: body except ...: ...] *)
Definition try_except {A} (body : res A) (clauses : list (list exn * (exn -> res A))) : res A :=
  match body with
  | Ok a => Ok a
  | Raise e => handle e clauses
  end.

Definition returns {A} (m : res A) : Prop := exists a, m = Ok a.

End Exn.
Export Exn.

(** * Text *)

Module Text.

Definition code (c : ascii) : Z := Z.of_N (N_of_ascii c).
Definition chr (n : Z) : ascii := ascii_of_N (Z.to_N n).

Definition is_digit (c : ascii) : bool := (48 <=? code c) && (code c <=? 57).
Definition digit_value (c : ascii) : Z := code c - 48.

(** The ASCII white space that [int] strips from a str: TAB..CR and SPACE. *)
Definition is_space (c : ascii) : bool :=
  let n := code c in
  ((9 <=? n) && (n <=? 13)) || (n =? 32).

Definition lower_char (c : ascii) : ascii :=
  let n := code c in
  if (65 <=? n) && (n <=? 90) then chr (n + 32) else c.

(** [s.lower()] *)
Fixpoint lower (s : string) : string :=
  match s with
  | EmptyString => EmptyString
  | String c s' => String (lower_char c) (lower s')
  end.

Fixpoint starts_with (p s : string) : bool :=
  match p, s with
  | EmptyString, _ => true
  | String a p', String b s' => bool_decide (a = b) && starts_with p' s'
  | String _ _, EmptyString => false
  end.

(** [sub in s] for two strs. *)
Fixpoint contains (sub s : string) : bool :=
  starts_with sub s ||
  match s with
  | EmptyString => false
  | String _ s' => contains sub s'
  end.

Fixpoint lstrip (s : string) : string :=
  match s with
  | String c s' => if is_space c then lstrip s' else s
  | EmptyString => EmptyString
  end.

Fixpoint rstrip (s : string) : string :=
  match s with
  | EmptyString => EmptyString
  | String c s' =>
      match rstrip s' with
      | EmptyString => if is_space c then EmptyString else String c EmptyString
      | t => String c t
      end
  end.

(** [s] without the white space at its two ends. *)
Definition strip (s : string) : string := rstrip (lstrip s).

Fixpoint concat_map (f : ascii -> string) (s : string) : string :=
  match s with
  | EmptyString => EmptyString
  | String c s' => f c ++ concat_map f s'
  end.

Fixpoint join (sep : string) (l : list string) : string :=
  match l with
  | [] => EmptyString
  | [x] => x
  | x :: l' => x ++ sep ++ join sep l'
  end.

Fixpoint repeat_string (n : nat) (s : string) : string :=
  match n with
  | O => EmptyString
  | S n' => s ++ repeat_string n' s
  end.

Definition hex_digit (n : Z) : ascii :=
  if n <? 10 then chr (48 + n) else chr (87 + n).

(** The text [s] with every single quote turned into a double quote: a way to
    write down JSON texts. *)
Fixpoint dq (s : string) : string :=
  match s with
  | EmptyString => EmptyString
  | String c s' => String (if bool_decide (c = "039"%char) then "034"%char else c) (dq s')
  end.

(** Decimal digits of a natural number and of an integer, as [str(n)]. *)
Definition string_of_N (n : N) : string := NilEmpty.string_of_uint (N.to_uint n).

Definition string_of_Z (z : Z) : string :=
  match z with
  | Zneg p => String "-" (string_of_N (Npos p))
  | _ => string_of_N (Z.to_N z)
  end.

End Text.
Export Text.

(** * Floats *)

Module Float.

(** binary64: 53 bits of precision, infinities at exponent 1024.  A float is a
    [spec_float] in canonical form, which is what [of_decimal] produces. *)
Definition prec : Z := 53.
Definition emax : Z := 1024.

#[global] Instance spec_float_eq_dec : EqDecision spec_float.
Proof. solve_decision. Defined.

Definition nan : spec_float := S754_nan.
Definition inf : spec_float := S754_infinity false.
Definition neg_inf : spec_float := S754_infinity true.

(** The float nearest to [(-1)^neg * m * 10^k] for [0 <= m], ties to even:
    what [float] makes of a decimal literal. *)
Definition of_decimal (neg : bool) (m k : Z) : spec_float :=
  if 0 <=? k then
    match m * 10 ^ k with
    | Zpos p => binary_round prec emax neg p 0
    | _ => S754_zero neg
    end
  else
    match m with
    | Zpos _ =>
        let '(q, e, l) := SFdiv_core_binary prec emax m 0 (10 ^ (- k)) 0 in
        binary_round_aux prec emax neg q e l
    | _ => S754_zero neg
    end.

(** [int(x)]: truncation towards zero; NaN and the infinities have no integer. *)
Definition trunc (x : spec_float) : res Z :=
  match x with
  | S754_zero _ => Ok 0
  | S754_infinity _ => Raise OverflowError
  | S754_nan => Raise ValueError
  | S754_finite s m e =>
      let a := Z.shiftl (Zpos m) e in
      Ok (if s then - a else a)
  end.

(** [bool(x)] *)
Definition nonzero (x : spec_float) : bool :=
  match x with
  | S754_zero _ => false
  | _ => true
  end.

(** ** [repr] of a float: the shortest decimal that reads back as the float *)

(** [|x|] as a fraction. *)
Definition magnitude (m : positive) (e : Z) : Z * Z :=
  if 0 <=? e then (Zpos m * 2 ^ e, 1) else (Zpos m, 2 ^ (- e)).

(** [|x| / 10^k] as a fraction. *)
Definition scaled (x : Z * Z) (k : Z) : Z * Z :=
  if 0 <=? k then (x.1, x.2 * 10 ^ k) else (x.1 * 10 ^ (- k), x.2).

(** The least [d] with [|x| < 10^d], sought over the range of binary64. *)
Definition decimal_point (x : Z * Z) : Z :=
  let below d := let y := scaled x d in y.1 <? y.2 in
  default 310 (find below (seqZ (-324) 634)).

(** The [n]-digit decimals next to [|x|], those that read back as [|x|], and
    of these the nearer one (the even one when both are as near). *)
Definition candidate (m : positive) (e : Z) (n : Z) : option (Z * Z) :=
  let x := magnitude m e in
  let k := decimal_point x - n in
  let y := scaled x k in
  let lo := y.1 / y.2 in
  let r := y.1 mod y.2 in
  let hi := lo + 1 in
  let reads c := bool_decide (of_decimal false c k = S754_finite false m e) in
  let lo_ok := (0 <? lo) && reads lo in
  let hi_ok := reads hi in
  let prefer_lo :=
    match 2 * r ?= y.2 with
    | Lt => true
    | Gt => false
    | Eq => Z.even lo
    end in
  if lo_ok && hi_ok then Some (if prefer_lo then lo else hi, k)
  else if lo_ok then Some (lo, k)
  else if hi_ok then Some (hi, k)
  else None.

Fixpoint first_candidate (m : positive) (e : Z) (ns : list Z) : Z * Z :=
  match ns with
  | [] => (Zpos m, e)
  | n :: ns' =>
      match candidate m e n with
      | Some c => c
      | None => first_candidate m e ns'
      end
  end.

Fixpoint drop_zeros (fuel : nat) (c k : Z) : Z * Z :=
  match fuel with
  | O => (c, k)
  | S fuel' => if (c mod 10 =? 0) && (0 <? c) then drop_zeros fuel' (c / 10) (k + 1) else (c, k)
  end.

(** Digits and position of the decimal point of the shortest decimal. *)
Definition shortest (m : positive) (e : Z) : string * Z :=
  let '(c, k) := first_candidate m e (seqZ 1 17) in
  let '(c, k) := drop_zeros 20 c k in
  let ds := string_of_Z c in
  (ds, k + Z.of_nat (String.length ds)).

Definition zeros (n : Z) : string := repeat_string (Z.to_nat n) "0".

Definition two_digits (n : Z) : string :=
  if n <? 10 then String "0" (string_of_Z n) else string_of_Z n.

(** The layout of format code [r]: exponent form outside [1e-4 .. 1e16). *)
Definition layout (ds : string) (decpt : Z) : string :=
  let n := Z.of_nat (String.length ds) in
  if (decpt <=? -4) || (16 <? decpt) then
    let ex := decpt - 1 in
    let mant :=
      match ds with
      | String d EmptyString => ds
      | String d rest => String d (String "." rest)
      | EmptyString => ds
      end in
    mant ++ "e" ++ (if ex <? 0 then "-" else "+") ++ two_digits (Z.abs ex)
  else if decpt <=? 0 then "0." ++ zeros (- decpt) ++ ds
  else if n <=? decpt then ds ++ zeros (decpt - n) ++ ".0"
  else substring 0 (Z.to_nat decpt) ds ++ "." ++
       substring (Z.to_nat decpt) (Z.to_nat (n - decpt)) ds.

(** [repr(x)], which is also [str(x)]. *)
Definition repr (x : spec_float) : string :=
  match x with
  | S754_nan => "nan"
  | S754_infinity false => "inf"
  | S754_infinity true => "-inf"
  | S754_zero false => "0.0"
  | S754_zero true => "-0.0"
  | S754_finite s m e =>
      let '(ds, decpt) := shortest m e in
      (if s then "-" else EmptyString) ++ layout ds decpt
  end.

End Float.

(** * Python objects *)

Module Py.

(** The hashable scalars that serve as dict keys. *)
Inductive key : Type :=
| KNone
| KBool (b : bool)
| KInt (z : Z)
| KFloat (x : spec_float)
| KStr (s : string).

Unset Elimination Schemes.
Inductive value : Type :=
| VNone
| VBool (b : bool)
| VInt (z : Z)
| VFloat (x : spec_float)
| VStr (s : string)
| VList (l : list value)
| VDict (d : list (key * value)).
Set Elimination Schemes.

#[global] Instance key_eq_dec : EqDecision key.
Proof. solve_decision. Defined.

(** ** [repr] and [str] *)

Definition quote1 : ascii := "039"%char.
Definition quote2 : ascii := "034"%char.
Definition backslash : ascii := "092"%char.

Definition has_char (c : ascii) (s : string) : bool := contains (String c EmptyString) s.

Definition repr_char (q c : ascii) : string :=
  let n := code c in
  if bool_decide (c = backslash) then String backslash (String backslash EmptyString)
  else if bool_decide (c = q) then String backslash (String q EmptyString)
  else if n =? 9 then String backslash "t"
  else if n =? 10 then String backslash "n"
  else if n =? 13 then String backslash "r"
  else if (n <? 32) || (n =? 127) then
    String backslash (String "x" (String (hex_digit (n / 16)) (String (hex_digit (n mod 16)) EmptyString)))
  else String c EmptyString.

(** [repr] of a str: single quotes unless the text has one and no double quote. *)
Definition repr_str (s : string) : string :=
  let q := if has_char quote1 s && negb (has_char quote2 s) then quote2 else quote1 in
  String q (concat_map (repr_char q) s ++ String q EmptyString).

Definition repr_key (k : key) : string :=
  match k with
  | KNone => "None"
  | KBool true => "True"
  | KBool false => "False"
  | KInt z => string_of_Z z
  | KFloat x => Float.repr x
  | KStr s => repr_str s
  end.

Fixpoint repr (v : value) : string :=
  match v with
  | VNone => "None"
  | VBool true => "True"
  | VBool false => "False"
  | VInt z => string_of_Z z
  | VFloat x => Float.repr x
  | VStr s => repr_str s
  | VList l => "[" ++ join ", " (List.map repr l) ++ "]"
  | VDict d =>
      "{" ++ join ", " (List.map (fun kv => repr_key (fst kv) ++ ": " ++ repr (snd kv)) d) ++ "}"
  end.

(** [str(v)] *)
Definition str (v : value) : string :=
  match v with
  | VStr s => s
  | _ => repr v
  end.

(** ** [int] *)

(** Digits with single underscores between them, as an int literal allows. *)
Fixpoint digits_value (s : string) (acc : Z) (after_digit : bool) : option Z :=
  match s with
  | EmptyString => if after_digit then Some acc else None
  | String c s' =>
      if is_digit c then digits_value s' (10 * acc + digit_value c) true
      else if bool_decide (c = "_"%char) && after_digit then digits_value s' acc false
      else None
  end.

(** [int(s)] for a str, base ten: white space around, a sign, digits. *)
Definition int_of_str (s : string) : option Z :=
  match strip s with
  | String "-" t => Z.opp <$> digits_value t 0 false
  | String "+" t => digits_value t 0 false
  | t => digits_value t 0 false
  end.

(** [int(v)] *)
Definition int (v : value) : res Z :=
  match v with
  | VNone => Raise TypeError
  | VBool b => Ok (if b then 1 else 0)
  | VInt z => Ok z
  | VFloat x => Float.trunc x
  | VStr s =>
      match int_of_str s with
      | Some z => Ok z
      | None => Raise ValueError
      end
  | VList _ | VDict _ => Raise TypeError
  end.

(** ** Truth, type tests and dict access *)

(** [bool(v)] *)
Definition truthy (v : value) : bool :=
  match v with
  | VNone => false
  | VBool b => b
  | VInt z => negb (z =? 0)
  | VFloat x => Float.nonzero x
  | VStr s => negb (bool_decide (s = EmptyString))
  | VList l => negb (bool_decide (length l = 0%nat))
  | VDict d => negb (bool_decide (length d = 0%nat))
  end.

Definition is_list (v : value) : bool :=
  match v with VList _ => true | _ => false end.

Definition is_dict (v : value) : bool :=
  match v with VDict _ => true | _ => false end.

(** The elements a [for] loop over a list goes through. *)
Definition elements (v : value) : list value :=
  match v with VList l => l | _ => [] end.

(** The value a dict binds to the str key [k]. *)
Fixpoint lookup (d : list (key * value)) (k : string) : option value :=
  match d with
  | [] => None
  | (k', v) :: d' => if bool_decide (k' = KStr k) then Some v else lookup d' k
  end.

Definition is_str (k : string) (v : value) : bool :=
  match v with VStr s => bool_decide (s = k) | _ => false end.

(** [k in v] for a str [k]: key of a dict, element of a list, piece of a str;
    the other types are not containers. *)
Definition contains_str (v : value) (k : string) : res bool :=
  match v with
  | VDict d => Ok (bool_decide (is_Some (lookup d k)))
  | VList l => Ok (existsb (is_str k) l)
  | VStr s => Ok (contains k s)
  | _ => Raise TypeError
  end.

(** [v[k]] for a str [k]. *)
Definition getitem (v : value) (k : string) : res value :=
  match v with
  | VDict d =>
      match lookup d k with
      | Some x => Ok x
      | None => Raise KeyError
      end
  | _ => Raise TypeError
  end.

(** [v.get(k, default)] for a str [k]; only a dict has the method. *)
Definition get (v : value) (k : string) (default : value) : res value :=
  match v with
  | VDict d => Ok (match lookup d k with Some x => x | None => default end)
  | _ => Raise AttributeError
  end.

End Py.

(** * The [json] module: [dump] with [indent=2, ensure_ascii=False], and [load] *)

Module Json.
Import Py.

(** ** Encoder *)

Definition bs (c : ascii) : string := String backslash (String c EmptyString).

(** The replacement of one character inside a string literal: the quote, the
    backslash and the control characters are escaped, the rest is kept. *)
Definition escape_char (c : ascii) : string :=
  let n := code c in
  if bool_decide (c = quote2) then bs quote2
  else if bool_decide (c = backslash) then bs backslash
  else if n =? 8 then bs "b"
  else if n =? 9 then bs "t"
  else if n =? 10 then bs "n"
  else if n =? 12 then bs "f"
  else if n =? 13 then bs "r"
  else if n <? 32 then
    String backslash (String "u" (String "0" (String "0"
      (String (hex_digit (n / 16)) (String (hex_digit (n mod 16)) EmptyString)))))
  else String c EmptyString.

Definition encode_str (s : string) : string :=
  String quote2 (concat_map escape_char s ++ String quote2 EmptyString).

Definition float_str (x : spec_float) : string :=
  match x with
  | S754_nan => "NaN"
  | S754_infinity false => "Infinity"
  | S754_infinity true => "-Infinity"
  | _ => Float.repr x
  end.

(** A key that is not a str is turned into one. *)
Definition key_str (k : key) : string :=
  match k with
  | KStr s => s
  | KFloat x => float_str x
  | KBool true => "true"
  | KBool false => "false"
  | KNone => "null"
  | KInt z => string_of_Z z
  end.

Definition newline_indent (level : nat) : string :=
  String "010" (repeat_string level "  ").

(** [x0 sep x1 sep ... xn] *)
Fixpoint sep_by (sep : string) (l : list string) : string :=
  match l with
  | [] => EmptyString
  | x :: l' => sep ++ x ++ sep_by sep l'
  end.

Definition items (level : nat) (l : list string) : string :=
  match l with
  | [] => EmptyString
  | x :: l' =>
      newline_indent (S level) ++ x ++
      sep_by (String "," (newline_indent (S level))) l' ++ newline_indent level
  end.

Fixpoint encode (level : nat) (v : value) : string :=
  match v with
  | VStr s => encode_str s
  | VNone => "null"
  | VBool true => "true"
  | VBool false => "false"
  | VInt z => string_of_Z z
  | VFloat x => float_str x
  | VList l => "[" ++ items level (List.map (encode (S level)) l) ++ "]"
  | VDict d =>
      "{" ++ items level
        (List.map (fun kv => encode_str (key_str (fst kv)) ++ ": " ++ encode (S level) (snd kv)) d)
      ++ "}"
  end.

(** [json.dumps(v, indent=2, ensure_ascii=False)] *)
Definition dumps (v : value) : string := encode 0 v.

(** ** Decoder *)

Definition is_ws (c : ascii) : bool :=
  let n := code c in (n =? 32) || (n =? 9) || (n =? 10) || (n =? 13).

Fixpoint skip_ws (s : string) : string :=
  match s with
  | String c s' => if is_ws c then skip_ws s' else s
  | EmptyString => EmptyString
  end.

Definition hex_value (c : ascii) : option Z :=
  let n := code c in
  if (48 <=? n) && (n <=? 57) then Some (n - 48)
  else if (97 <=? n) && (n <=? 102) then Some (n - 87)
  else if (65 <=? n) && (n <=? 70) then Some (n - 55)
  else None.

(** The pieces of a string literal: a character as written, or the code point
    of a [\uXXXX] escape. *)
Inductive piece : Type :=
| Raw (c : ascii)
| Uni (cp : Z).

Definition unescape (e : ascii) : option ascii :=
  if bool_decide (e = quote2) then Some quote2
  else if bool_decide (e = backslash) then Some backslash
  else if bool_decide (e = "/"%char) then Some "/"%char
  else if bool_decide (e = "b"%char) then Some (chr 8)
  else if bool_decide (e = "f"%char) then Some (chr 12)
  else if bool_decide (e = "n"%char) then Some (chr 10)
  else if bool_decide (e = "r"%char) then Some (chr 13)
  else if bool_decide (e = "t"%char) then Some (chr 9)
  else None.

(** The body of a string literal up to its closing quote (strict mode: a bare
    control character is an error). *)
Fixpoint scan_pieces (s : string) : option (list piece * string) :=
  match s with
  | EmptyString => None
  | String c s' =>
      if bool_decide (c = quote2) then Some ([], s')
      else if bool_decide (c = backslash) then
        match s' with
        | String e s'' =>
            if bool_decide (e = "u"%char) then
              match s'' with
              | String h1 (String h2 (String h3 (String h4 s3))) =>
                  a ← hex_value h1; b ← hex_value h2; c ← hex_value h3; d ← hex_value h4;
                  '(ps, r) ← scan_pieces s3;
                  Some (Uni (((a * 16 + b) * 16 + c) * 16 + d) :: ps, r)
              | _ => None
              end
            else
              x ← unescape e;
              '(ps, r) ← scan_pieces s'';
              Some (Raw x :: ps, r)
        | EmptyString => None
        end
      else if code c <? 32 then None
      else '(ps, r) ← scan_pieces s'; Some (Raw c :: ps, r)
  end.

(** A code point as the characters of the str (UTF-8). *)
Definition utf8 (cp : Z) : string :=
  if cp <? 128 then String (chr cp) EmptyString
  else if cp <? 2048 then
    String (chr (192 + cp / 64)) (String (chr (128 + cp mod 64)) EmptyString)
  else if cp <? 65536 then
    String (chr (224 + cp / 4096)) (String (chr (128 + (cp / 64) mod 64))
      (String (chr (128 + cp mod 64)) EmptyString))
  else
    String (chr (240 + cp / 262144)) (String (chr (128 + (cp / 4096) mod 64))
      (String (chr (128 + (cp / 64) mod 64)) (String (chr (128 + cp mod 64)) EmptyString))).

(** Escapes of a high and a low surrogate in a row make one code point. *)
Fixpoint assemble (ps : list piece) : string :=
  match ps with
  | [] => EmptyString
  | Raw c :: ps' => String c (assemble ps')
  | Uni hi :: ps' =>
      match ps' with
      | Uni lo :: ps'' =>
          if (55296 <=? hi) && (hi <=? 56319) && (56320 <=? lo) && (lo <=? 57343)
          then utf8 (65536 + (hi - 55296) * 1024 + (lo - 56320)) ++ assemble ps''
          else utf8 hi ++ assemble ps'
      | _ => utf8 hi ++ assemble ps'
      end
  end.

(** A string literal after its opening quote. *)
Definition scan_string (s : string) : option (string * string) :=
  '(ps, r) ← scan_pieces s; Some (assemble ps, r).

(** The leading decimal digits of a text, and what follows them. *)
Fixpoint take_digits (s : string) : string * string :=
  match s with
  | String c s' =>
      if is_digit c then let '(ds, r) := take_digits s' in (String c ds, r)
      else (EmptyString, s)
  | EmptyString => (EmptyString, EmptyString)
  end.

Definition digits_to_N (ds : string) : N :=
  match NilEmpty.uint_of_string ds with
  | Some d => N.of_uint d
  | None => 0%N
  end.

(** [s] without the prefix [p], when it has it. *)
Fixpoint after (p s : string) : option string :=
  match p, s with
  | EmptyString, _ => Some s
  | String a p', String b s' => if bool_decide (a = b) then after p' s' else None
  | String _ _, EmptyString => None
  end.

(** [0|[1-9][0-9]*] *)
Definition scan_integer (s : string) : option (string * string) :=
  match s with
  | String c s' =>
      if bool_decide (c = "0"%char) then Some ("0", s')
      else if is_digit c then Some (take_digits s)
      else None
  | EmptyString => None
  end.

(** [(\.[0-9]+)?] *)
Definition scan_fraction (s : string) : option string * string :=
  match after "." s with
  | Some s' =>
      match take_digits s' with
      | (EmptyString, _) => (None, s)
      | (ds, r) => (Some ds, r)
      end
  | None => (None, s)
  end.

(** [[-+]?] *)
Definition scan_sign (s : string) : bool * string :=
  match after "-" s with
  | Some t => (true, t)
  | None =>
      match after "+" s with
      | Some t => (false, t)
      | None => (false, s)
      end
  end.

(** [([eE][-+]?[0-9]+)?] *)
Definition scan_exponent (s : string) : option Z * string :=
  match s with
  | String c s' =>
      if bool_decide (c = "e"%char) || bool_decide (c = "E"%char) then
        let '(neg, s'') := scan_sign s' in
        match take_digits s'' with
        | (EmptyString, _) => (None, s)
        | (ds, r) =>
            let n := Z.of_N (digits_to_N ds) in
            (Some (if neg then - n else n), r)
        end
      else (None, s)
  | EmptyString => (None, s)
  end.

(** The digits of a number after its sign: an int when there is neither
    fraction nor exponent, else a float. *)
Definition scan_magnitude (neg : bool) (s1 : string) : option (value * string) :=
  '(ip, s2) ← scan_integer s1;
  let '(frac, s3) := scan_fraction s2 in
  let '(ex, s4) := scan_exponent s3 in
  match frac, ex with
  | None, None =>
      let n := Z.of_N (digits_to_N ip) in
      Some (VInt (if neg then - n else n), s4)
  | _, _ =>
      let fp := default EmptyString frac in
      let m := Z.of_N (digits_to_N (ip ++ fp)) in
      let k := default 0 ex - Z.of_nat (String.length fp) in
      Some (VFloat (Float.of_decimal neg m k), s4)
  end.

Definition scan_number (s : string) : option (value * string) :=
  match after "-" s with
  | Some t => scan_magnitude true t
  | None => scan_magnitude false s
  end.

Definition scan_constant (s : string) : option (value * string) :=
  match after "null" s with Some r => Some (VNone, r) | None =>
  match after "true" s with Some r => Some (VBool true, r) | None =>
  match after "false" s with Some r => Some (VBool false, r) | None =>
  match scan_number s with Some vr => Some vr | None =>
  match after "NaN" s with Some r => Some (VFloat Float.nan, r) | None =>
  match after "Infinity" s with Some r => Some (VFloat Float.inf, r) | None =>
  match after "-Infinity" s with Some r => Some (VFloat Float.neg_inf, r) | None =>
  None
  end end end end end end end.

(** [d[k] = v] *)
Fixpoint setitem (d : list (key * value)) (k : key) (v : value) : list (key * value) :=
  match d with
  | [] => [(k, v)]
  | (k', v') :: d' => if bool_decide (k' = k) then (k, v) :: d' else (k', v') :: setitem d' k v
  end.

(** [dict(pairs)]: a later pair replaces the value of an earlier one with its key. *)
Definition dict_of_pairs (ps : list (string * value)) : list (key * value) :=
  fold_left (fun d kv => setitem d (KStr (fst kv)) (snd kv)) ps [].

(** The scanner; [fuel] bounds the chain of nested calls. *)
Fixpoint scan_value (fuel : nat) (s : string) : option (value * string) :=
  match fuel with
  | O => None
  | S fuel' =>
      match s with
      | EmptyString => None
      | String c s' =>
          if bool_decide (c = quote2) then
            '(t, r) ← scan_string s'; Some (VStr t, r)
          else if bool_decide (c = "["%char) then
            let s1 := skip_ws s' in
            match after "]" s1 with
            | Some r => Some (VList [], r)
            | None => '(l, r) ← scan_elements fuel' s1; Some (VList l, r)
            end
          else if bool_decide (c = "{"%char) then
            let s1 := skip_ws s' in
            match after "}" s1 with
            | Some r => Some (VDict [], r)
            | None => '(ps, r) ← scan_members fuel' s1; Some (VDict (dict_of_pairs ps), r)
            end
          else scan_constant s
      end
  end
with scan_elements (fuel : nat) (s : string) : option (list value * string) :=
  match fuel with
  | O => None
  | S fuel' =>
      '(v, r) ← scan_value fuel' s;
      let t := skip_ws r in
      match after "]" t with
      | Some r' => Some ([v], r')
      | None =>
          match after "," t with
          | Some r' => '(l, r'') ← scan_elements fuel' (skip_ws r'); Some (v :: l, r'')
          | None => None
          end
      end
  end
with scan_members (fuel : nat) (s : string) : option (list (string * value) * string) :=
  match fuel with
  | O => None
  | S fuel' =>
      match s with
      | String c s' =>
          if bool_decide (c = quote2) then
            '(k, r) ← scan_string s';
            match after ":" (skip_ws r) with
            | Some r1 =>
                '(v, r2) ← scan_value fuel' (skip_ws r1);
                let t := skip_ws r2 in
                match after "}" t with
                | Some r3 => Some ([(k, v)], r3)
                | None =>
                    match after "," t with
                    | Some r3 =>
                        '(ps, r4) ← scan_members fuel' (skip_ws r3); Some ((k, v) :: ps, r4)
                    | None => None
                    end
                end
            | None => None
            end
          else None
      | EmptyString => None
      end
  end.

(** [json.loads(s)].  Every nested call of the scanner comes after a character
    it has consumed, at most two calls for one character, so twice the length
    of the text is fuel enough for any text. *)
Definition loads (s : string) : res value :=
  match scan_value (S (2 * String.length s)) (skip_ws s) with
  | Some (v, r) =>
      match skip_ws r with
      | EmptyString => Ok v
      | _ => Raise JSONDecodeError
      end
  | None => Raise JSONDecodeError
  end.

End Json.

(** * [float] *)

Module PyFloat.
Import Py.

(** [float(z)] for an int: the nearest float, ties to even; an int beyond the
    range of floats has none. *)
Definition of_int (z : Z) : res spec_float :=
  match binary_normalize Float.prec Float.emax z 0 false with
  | S754_infinity _ => Raise OverflowError
  | x => Ok x
  end.

(** An underscore in a numeric literal stands between two digits; [prev] is
    the character before [s]. *)
Fixpoint underscores_ok (prev : ascii) (s : string) : bool :=
  match s with
  | EmptyString => negb (bool_decide (prev = "_"%char))
  | String c s' =>
      (if bool_decide (c = "_"%char) then is_digit prev
       else if bool_decide (prev = "_"%char) then is_digit c
       else true) && underscores_ok c s'
  end.

Fixpoint drop_underscores (s : string) : string :=
  match s with
  | EmptyString => EmptyString
  | String c s' =>
      if bool_decide (c = "_"%char) then drop_underscores s' else String c (drop_underscores s')
  end.

(** [digits [. digits]] or [. digits], then an optional exponent, and nothing
    after it. *)
Definition decimal (neg : bool) (t : string) : option spec_float :=
  let '(ip, t1) := Json.take_digits t in
  let '(fp, t2) :=
    match Json.after "." t1 with
    | Some r => Json.take_digits r
    | None => (EmptyString, t1)
    end in
  if bool_decide (ip = EmptyString) && bool_decide (fp = EmptyString) then None
  else
    let '(ex, t3) := Json.scan_exponent t2 in
    if bool_decide (t3 = EmptyString) then
      Some (Float.of_decimal neg (Z.of_N (Json.digits_to_N (ip ++ fp)))
              (default 0 ex - Z.of_nat (String.length fp)))
    else None.

(** [float(s)] for a str: white space around, a sign, then [inf], [infinity]
    or [nan] in any case, or a decimal. *)
Definition of_str (s : string) : option spec_float :=
  if underscores_ok "000"%char s then
    let '(neg, t) := Json.scan_sign (strip (drop_underscores s)) in
    let u := lower t in
    if bool_decide (u = "inf") || bool_decide (u = "infinity") then Some (S754_infinity neg)
    else if bool_decide (u = "nan") then Some S754_nan
    else decimal neg t
  else None.

(** [float(v)] *)
Definition float (v : value) : res spec_float :=
  match v with
  | VNone => Raise TypeError
  | VBool b => Ok (if b then Float.of_decimal false 1 0 else S754_zero false)
  | VInt z => of_int z
  | VFloat x => Ok x
  | VStr s =>
      match of_str s with
      | Some x => Ok x
      | None => Raise ValueError
      end
  | VList _ | VDict _ => Raise TypeError
  end.

End PyFloat.

(** * The file system *)

Module FS.

(** What a path that exists holds, as far as opening and reading it goes. *)
Inductive node : Type :=
| Text (s : string)   (** a regular file whose bytes decode as UTF-8 to [s] *)
| Garbled             (** a regular file whose bytes are not UTF-8 *)
| Denied.             (** a path that cannot be opened: a directory, no permission *)

(** [path.exists()], taken to answer without raising. *)
Definition path_exists (fs : gmap string node) (path : string) : bool :=
  bool_decide (is_Some (fs !! path)).

(** [open(path, "r", encoding="utf-8")] and [read()] *)
Definition read_text (fs : gmap string node) (path : string) : res string :=
  match fs !! path with
  | Some (Text s) => Ok s
  | Some Garbled => Raise UnicodeDecodeError
  | Some Denied | None => Raise OSError
  end.

(** [open(path, "w", encoding="utf-8")] and [write(s)]: the file is created or
    replaced. *)
Definition write_text (fs : gmap string node) (path s : string)
    : gmap string node * res unit :=
  match fs !! path with
  | Some Denied => (fs, Raise OSError)
  | _ => (<[path := Text s]> fs, Ok ())
  end.

Definition writable (fs : gmap string node) (path : string) : Prop :=
  fs !! path ≠ Some Denied.

End FS.

(** * [src/services/data_loader.py] *)

Module DataLoader.
Import Py FS.

Definition load_json (fs : gmap string node) (file_path : string) : res value :=
  if negb (path_exists fs file_path) then Ok VNone
  else
    try_except
      (text ← read_text fs file_path;
       data ← Json.loads text;
       Ok data)
      [([JSONDecodeError], fun _ => Ok VNone);
       ([Exception], fun _ => Ok VNone)].

(** Paths are flat: the parent directory is there, and [mkdir] with
    [exist_ok=True] leaves it as it is.  Every [value] is serializable, so the
    only failure left is that of opening the file. *)
Definition save_json (fs : gmap string node) (file_path : string) (data : value)
    : gmap string node * res bool :=
  let '(fs', written) := write_text fs file_path (Json.dumps data) in
  (fs', try_except (written;; Ok true) [([Exception], fun _ => Ok false)]).

(** [[field for field in required_fields if field not in data]] *)
Fixpoint missing_fields (data : value) (required_fields : list string) : res (list string) :=
  match required_fields with
  | [] => Ok []
  | field :: fields =>
      present ← contains_str data field;
      rest ← missing_fields data fields;
      Ok (if (present : bool) then rest else field :: rest)
  end.

Definition validate_required_fields (data : value) (required_fields : list string)
    (entity_name : string) : res bool :=
  missing ← missing_fields data required_fields;
  match missing with
  | _ :: _ => Ok false
  | [] => Ok true
  end.

Definition safe_int (value : Py.value) (default : Z) : res Z :=
  try_except (Py.int value) [([ValueError; TypeError], fun _ => Ok default)].

Definition safe_float (value : Py.value) (default : spec_float) : res spec_float :=
  try_except (PyFloat.float value) [([ValueError; TypeError], fun _ => Ok default)].

Definition safe_list (value default : Py.value) : Py.value :=
  let default := match default with VNone => VList [] | _ => default end in
  match value with
  | VList _ => value
  | VNone => default
  | _ => VList [value]
  end.

End DataLoader.

(** * [src/models.py] *)

Module Monster.
(** Modelled from the spec: the [Monster] record of [src/models.py], which is
    not among the sources; its fields are those of the data model and of the
    constructor calls in the services and the tests. *)
Record t : Type := make {
  id : string;
  name : string;
  hp : Z;
  exp : Z;
  loot : string;
  location : string;
  difficulty : Py.value
}.
End Monster.

Module ServerInfo.
(** Modelled from the spec: the [ServerInfo] record of [src/models.py], which is
    not among the sources; its fields are those of the data model and of the
    constructor call in the service. *)
Record t : Type := make {
  id : string;
  name : string;
  description : string;
  rates : Py.value;
  version : string;
  website : Py.value;
  discord : Py.value;
  additional_info : Py.value
}.
End ServerInfo.

(** * [src/services/monsters_service.py] *)

Module MonstersService.
Import Py FS DataLoader.

Definition MONSTERS_FILE : string := "content/monsters.json".

Definition required_fields : list string :=
  ["id"; "name"; "hp"; "exp"; "loot"; "location"].

(** The constructor call of the loop body, arguments evaluated left to right. *)
Definition build_monster (item : value) : res Monster.t :=
  id ← getitem item "id";
  name ← getitem item "name";
  hp ← getitem item "hp";
  hp ← safe_int hp 0;
  exp ← getitem item "exp";
  exp ← safe_int exp 0;
  loot ← getitem item "loot";
  location ← getitem item "location";
  difficulty ← get item "difficulty" VNone;
  Ok (Monster.make (str id) (str name) hp exp (str loot) (str location) difficulty).

(** The [for item in data] loop; [monsters] is the list built so far.  The
    handler formats [item.get('id', 'unknown')] into its log line. *)
Fixpoint load_loop (data : list value) (monsters : list Monster.t)
    : res (list Monster.t) :=
  match data with
  | [] => Ok monsters
  | item :: data' =>
      valid ← validate_required_fields item required_fields "Monster";
      if negb (valid : bool) then load_loop data' monsters
      else
        monsters ←
          try_except
            (monster ← build_monster item;
             Ok ((monsters ++ [monster])%list))
            [([Exception], fun _ => get item "id" (VStr "unknown");; Ok monsters)];
        load_loop data' monsters
  end.

Definition load_monsters (fs : gmap string node) : res (list Monster.t) :=
  data ← load_json fs MONSTERS_FILE;
  if negb (truthy data) || negb (is_list data) then Ok []
  else load_loop (elements data) [].

Fixpoint first_with_id (monsters : list Monster.t) (monster_id : string)
    : option Monster.t :=
  match monsters with
  | [] => None
  | monster :: monsters' =>
      if bool_decide (Monster.id monster = monster_id) then Some monster
      else first_with_id monsters' monster_id
  end.


Definition matches (query_lower : string) (monster : Monster.t) : bool :=
  contains query_lower (lower (Monster.name monster)) ||
  contains query_lower (lower (Monster.location monster)) ||
  contains query_lower (lower (Monster.loot monster)).

Definition search_monsters (fs : gmap string node) (query : string)
    : res (list Monster.t) :=
  if negb (truthy (VStr query)) then load_monsters fs
  else
    monsters ← load_monsters fs;
    let query_lower := lower query in
    Ok (List.filter (matches query_lower) monsters).

Definition filter_monsters_by_location (fs : gmap string node) (location : string)
    : res (list Monster.t) :=
  monsters ← load_monsters fs;
  let location_lower := lower location in
  Ok (List.filter (fun m => contains location_lower (lower (Monster.location m))) monsters).

(** The place of [x] in an ascending list without repetition; [x] is not put
    in twice. *)
Fixpoint insert_sorted (x : string) (l : list string) : list string :=
  match l with
  | [] => [x]
  | y :: l' =>
      match String.compare x y with
      | Lt => x :: l
      | Eq => l
      | Gt => y :: insert_sorted x l'
      end
  end.

(** [sorted(set(l))]: the distinct strs of [l] in ascending order. *)
Definition sorted_set (l : list string) : list string :=
  foldr insert_sorted [] l.

Definition get_locations (fs : gmap string node) : res (list string) :=
  monsters ← load_monsters fs;
  let locations := sorted_set (List.map Monster.location monsters) in
  Ok locations.

End MonstersService.

(** * [src/services/server_info_service.py] *)

Module ServerInfoService.
Import Py FS DataLoader.

Definition SERVER_INFO_FILE : string := "content/server_info.json".

Definition load_server_info (fs : gmap string node) : res (option ServerInfo.t) :=
  data ← load_json fs SERVER_INFO_FILE;
  if negb (truthy data) || negb (is_dict data) then Ok None
  else
    try_except
      (id ← get data "id" (VStr "server_001");
       name ← get data "name" (VStr "Fibula Project");
       description ← get data "description" (VStr EmptyString);
       rates ← get data "rates" (VDict []);
       version ← get data "version" (VStr "7.1");
       website ← get data "website" VNone;
       discord ← get data "discord" VNone;
       additional_info ← get data "additional_info" VNone;
       Ok (Some (ServerInfo.make (str id) (str name) (str description) rates
                   (str version) website discord additional_info)))
      [([Exception], fun _ => Ok None)].

Definition get_rate (fs : gmap string node) (rate_name : string) : res value :=
  server_info ← load_server_info fs;
  match server_info with
  | Some info =>
      if truthy (ServerInfo.rates info) then get (ServerInfo.rates info) rate_name VNone
      else Ok VNone
  | None => Ok VNone
  end.

End ServerInfoService.

(** * [pages/Monsters.py] *)

Module MonstersPage.
Import Py FS DataLoader MonstersService.

(** The options of the location select box. *)
Definition locations (fs : gmap string node) : res (list string) :=
  found ← get_locations fs;
  Ok ("All" :: found).

(** The monsters the page lists for what the search box and the location
    select box hold. *)
Definition monsters (fs : gmap string node) (search_query selected_location : string)
    : res (list Monster.t) :=
  monsters ←
    (if truthy (VStr search_query) then search_monsters fs search_query
     else load_monsters fs);
  if negb (bool_decide (selected_location = "All")) then
    Ok (List.filter (fun m => bool_decide (Monster.location m = selected_location)) monsters)
  else Ok monsters.

(** The options of the detail select box: the ids of the listed monsters. *)
Definition detail_options (monsters : list Monster.t) : list string :=
  List.map Monster.id monsters.

(** The monster the detail section shows for the id the detail select box
    holds: [next((m for m in monsters if m.id == monster_id), None)], under
    [if monster_id:]. *)
Definition detail (monsters : list Monster.t) (monster_id : string) : option Monster.t :=
  if truthy (VStr monster_id) then first_with_id monsters monster_id else None.

End MonstersPage.

(** * The vocabulary of the statements *)

Module Spec.
Import Py FS DataLoader MonstersService.

(** The only way [int] fails with [OverflowError] is an infinite float. *)
Definition overflows (v : value) : bool :=
  match v with
  | VFloat (S754_infinity _) => true
  | _ => false
  end.

(** The dict binds the str key [k], to whatever value. *)
Definition has_key (d : list (key * value)) (k : string) : bool :=
  bool_decide (is_Some (lookup d k)).

(** A record is a mapping; it is valid when it has the six required keys. *)
Definition has_required_keys (item : value) : bool :=
  match item with
  | VDict d => forallb (has_key d) required_fields
  | _ => false
  end.


(** The entity a record contributes to the collection, if any. *)
Definition entity (item : value) : option Monster.t :=
  if has_required_keys item then
    match build_monster item with
    | Ok monster => Some monster
    | Raise _ => None
    end
  else None.

(** The value under [k], [None] when the key is absent. *)
Definition field (d : list (key * value)) (k : string) : value :=
  default VNone (lookup d k).

(** [q] occurs in [s] up to the case of letters: some piece of [s] and [q]
    are the same text once both are lowered. *)
Definition ci_substring (q s : string) : Prop :=
  exists before piece behind,
    s = before ++ piece ++ behind /\ lower piece = lower q.



(** A query of white space only, the empty one included. *)
Definition blank (q : string) : bool :=
  bool_decide (strip q = EmptyString).

Definition is_str_key (k : key) : bool :=
  match k with KStr _ => true | _ => false end.

(** Data made of [None], bools, ints, strs, lists and dicts whose keys are
    strs, each key once. *)
Fixpoint plain (v : value) : bool :=
  match v with
  | VFloat _ => false
  | VList l => forallb plain l
  | VDict d =>
      forallb (fun kv => is_str_key (fst kv) && plain (snd kv)) d &&
      bool_decide (NoDup (List.map fst d))
  | _ => true
  end.

(** The number of nested calls the scanner makes on the text of a value. *)
Fixpoint size (v : value) : nat :=
  match v with
  | VList l => S (list_sum (List.map (fun x => S (size x)) l))
  | VDict d => S (list_sum (List.map (fun kv => S (size (snd kv))) d))
  | _ => 1
  end.

(** What may follow the digits of an int in a JSON text: not a digit, nor the
    start of a fraction or of an exponent. *)
Definition ends_number (rest : string) : bool :=
  match rest with
  | EmptyString => true
  | String c _ =>
      negb (is_digit c || bool_decide (c = "."%char) ||
            bool_decide (c = "e"%char) || bool_decide (c = "E"%char))
  end.

(** The piece the scanner makes of a character the encoder has escaped. *)
Definition piece_of (c : ascii) : Json.piece :=
  let n := code c in
  if (n <? 32) && negb ((n =? 8) || (n =? 9) || (n =? 10) || (n =? 12) || (n =? 13))
  then Json.Uni n else Json.Raw c.

(** The first character of the text of a value is not white space and opens
    no other token than the value. *)
Definition opens_value (s : string) : Prop :=
  exists c t, s = String c t /\ Json.is_ws c = false /\
    c <> "]"%char /\ c <> "}"%char /\ c <> ","%char.

(** The text of [v] at a level of indentation, followed by anything that ends
    a number, scans as [v] and leaves what follows. *)
Definition reads_back (level : nat) (v : value) : Prop :=
  forall fuel rest, (size v < fuel)%nat -> ends_number rest = true ->
    Json.scan_value fuel (Json.encode level v ++ rest) = Some (v, rest).

(** The text of one member of a mapping. *)
Definition member_text (level : nat) (kv : key * value) : string :=
  Json.encode_str (Json.key_str (fst kv)) ++ ": " ++ Json.encode (S level) (snd kv).

End Spec.

(** * Sample documents *)

Module Samples.
Import Py FS DataLoader MonstersService ServerInfoService.





(** A catalogue of three records: two with the same id, and one without [loot]
    between them. *)
Definition catalogue_text : string :=
  dq ("[{'id': 'm1', 'name': 'Dragon', 'hp': '1000', 'exp': 700, 'loot': 'Gold, Dragon Scale', 'location': 'Dragon Lair'}," ++
      " {'id': 'm2', 'name': 'Ghost', 'hp': 150, 'exp': 120, 'location': 'Crypt'}," ++
      " {'id': 'm1', 'name': 'Rat', 'hp': null, 'exp': 5, 'loot': 'Cheese', 'location': 'Thais'}]").


Definition catalogue_fs : gmap string node :=
  {[ MONSTERS_FILE := Text catalogue_text ]}.

(** A catalogue of one monster whose texts are all empty. *)
Definition blank_fs : gmap string node :=
  {[ MONSTERS_FILE := Text (dq "[{'id': '', 'name': '', 'hp': 0, 'exp': 0, 'loot': '', 'location': ''}]") ]}.

Definition nameless : Monster.t :=
  Monster.make EmptyString EmptyString 0 0 EmptyString EmptyString VNone.

(** Server information with a null name and neither id nor version. *)
Definition server_text : string :=
  dq "{'name': null, 'rates': {'exp': 5}}".

Definition server_fs : gmap string node :=
  {[ SERVER_INFO_FILE := Text server_text ]}.

(** A mapping with an int key, and what comes back of it. *)
Definition int_keyed : value := VDict [(KInt 1, VStr "a")].

Definition dragon : Monster.t :=
  Monster.make "m1" "Dragon" 1000 700 "Gold, Dragon Scale" "Dragon Lair" VNone.

Definition rat : Monster.t :=
  Monster.make "m1" "Rat" 0 5 "Cheese" "Thais" VNone.

End Samples.

(** * The vocabulary of the further properties *)

Module Laws.
Import Py FS DataLoader MonstersService Spec.

(** A value that is no container: [None], a bool, an int or a float. *)
Definition scalar (v : value) : bool :=
  match v with
  | VNone | VBool _ | VInt _ | VFloat _ => true
  | _ => false
  end.

(** For a str or a list, whether each of the six required names is in it: a
    piece of the str, an element of the list. *)
Definition holds_names (item : value) : option bool :=
  match item with
  | VStr s => Some (forallb (fun f => contains f s) required_fields)
  | VList l => Some (forallb (fun f => existsb (is_str f) l) required_fields)
  | _ => None
  end.

(** Strictly ascending in the order of strs. *)
Definition ascending (l : list string) : Prop :=
  StronglySorted (fun a b => String.compare a b = Lt) l.



(** No float among the values of the data, at any depth; keys are free. *)
Fixpoint float_free (v : value) : bool :=
  match v with
  | VFloat _ => false
  | VList l => forallb float_free l
  | VDict d => forallb (fun kv => float_free (snd kv)) d
  | _ => true
  end.

(** What is left of data after a trip through a JSON text: each key is the
    text JSON writes for it, and of the members that come to the same text
    the last one gives the value, at the place of the first. *)
Fixpoint reloaded (v : value) : value :=
  match v with
  | VList l => VList (List.map reloaded l)
  | VDict d =>
      VDict (Json.dict_of_pairs
               (List.map (fun kv => (Json.key_str (fst kv), reloaded (snd kv))) d))
  | _ => v
  end.

(** The text of [v] at a level of indentation, followed by anything that ends
    a number, scans as [w] and leaves what follows. *)
Definition reads_as (level : nat) (v w : value) : Prop :=
  forall fuel rest, (size v < fuel)%nat -> ends_number rest = true ->
    Json.scan_value fuel (Json.encode level v ++ rest) = Some (w, rest).


(** The keys of a record that the construction of a monster reads. *)
Definition read_keys : list string := (required_fields ++ ["difficulty"])%list.

(** Two records bind the keys that are read alike. *)
Definition agree (d d' : list (key * value)) : Prop :=
  forall k, k ∈ read_keys -> lookup d k = lookup d' k.

End Laws.

(** * Properties *)

Import Py FS DataLoader MonstersService ServerInfoService Spec Samples.
Import Laws.

(** Induction that reaches the elements of lists and the values of dicts. *)
Lemma value_ind' (P : value -> Prop) :
  P VNone ->
  (forall b, P (VBool b)) ->
  (forall z, P (VInt z)) ->
  (forall x, P (VFloat x)) ->
  (forall s, P (VStr s)) ->
  (forall l, Forall P l -> P (VList l)) ->
  (forall d, Forall (fun kv => P kv.2) d -> P (VDict d)) ->
  forall v, P v.
Proof.
  intros HN HB HI HF HS HL HD.
  fix IH 1. intros [|b|z|x|s|l|d];
    [exact HN | exact (HB b) | exact (HI z) | exact (HF x) | exact (HS s) | |].
  - apply HL. induction l as [|v l IHl]; constructor; [apply IH | exact IHl].
  - apply HD. induction d as [|[k v] d IHd]; constructor; [apply IH | exact IHd].
Qed.


(** ** [safe_int] *)

(** [int] fails with one of three classes. *)
Lemma int_raises (v : value) (e : exn) :
  Py.int v = Raise e -> e = TypeError \/ e = ValueError \/ e = OverflowError.
Proof.
  destruct v as [|b|z|x|s|l|d]; simpl; try (intros [= <-]; auto); try discriminate.
  - destruct x; simpl; intros [= <-]; auto.
  - destruct (int_of_str s); intros [= <-]; auto.
Qed.

Lemma int_overflow (v : value) : Py.int v = Raise OverflowError <-> overflows v = true.
Proof.
  destruct v as [|b|z|x|s|l|d]; simpl; try (split; discriminate).
  - destruct x; simpl; split; auto; discriminate.
  - destruct (int_of_str s); split; discriminate.
Qed.

(** What the handler of [safe_int] makes of each outcome of [int]. *)
Lemma safe_int_cases (v : value) (default : Z) :
  safe_int v default =
  match Py.int v with
  | Ok z => Ok z
  | Raise OverflowError => Raise OverflowError
  | Raise _ => Ok default
  end.
Proof.
  unfold safe_int. destruct (Py.int v) as [z|e] eqn:E; [reflexivity|].
  destruct (int_raises _ _ E) as [-> | [-> | ->]]; reflexivity.
Qed.

Lemma safe_int_returns (v : value) (default : Z) :
  overflows v = false -> returns (safe_int v default).
Proof.
  intros H. rewrite safe_int_cases.
  destruct (Py.int v) as [z|e] eqn:E; [by exists z|].
  destruct (int_raises _ _ E) as [-> | [-> | ->]]; try by exists default.
  apply int_overflow in E. congruence.
Qed.

Lemma safe_int_raises (v : value) (default : Z) (e : exn) :
  safe_int v default = Raise e -> overflows v = true.
Proof.
  intros H. destruct (overflows v) eqn:E; [reflexivity|].
  destruct (safe_int_returns v default E) as [z Hz]. congruence.
Qed.

Example safe_int_numeric_string : safe_int (VStr "42") 0 = Ok 42.
Proof. reflexivity. Qed.

Example safe_int_decimal_string : safe_int (VStr "42.7") 0 = Ok 0.
Proof. reflexivity. Qed.

Example safe_int_none : safe_int VNone 10 = Ok 10.
Proof. reflexivity. Qed.

Example safe_int_float : safe_int (VFloat (Float.of_decimal false 427 (-1))) 0 = Ok 42.
Proof. vm_compute. reflexivity. Qed.

(** C4 (the code departs from the claim).  [safe_int] is to return the default
    whenever the value does not convert and never to raise; on an infinite
    float, which the JSON text [1e999] reads as, [int] fails with
    [OverflowError], the handler does not cover that class, and the exception
    leaves [safe_int]. *)
Theorem safe_int_infinite_float_raises :
  Json.loads "1e999" = Ok (VFloat Float.inf) /\
  safe_int (VFloat Float.inf) 0 = Raise OverflowError /\
  ~ returns (safe_int (VFloat Float.inf) 0).
Proof.
  split; [vm_compute; reflexivity|]. split; [reflexivity|].
  intros [z Hz]. discriminate.
Qed.

(** ** [safe_list] *)

(** C5.  [safe_list] hands a list back unchanged, wraps any other value that is
    not [None] in a one-element list, and for [None] gives the default, which
    is the empty list when no default is supplied. *)
Theorem safe_list_cases (value default : Py.value) :
  (is_list value = true -> safe_list value default = value) /\
  (is_list value = false -> value <> VNone ->
     safe_list value default = VList [value]) /\
  (value = VNone ->
     safe_list value default = match default with VNone => VList [] | _ => default end).
Proof.
  split; [|split].
  - destruct value; simpl; try discriminate; reflexivity.
  - destruct value; simpl; try discriminate; try reflexivity. congruence.
  - intros ->. reflexivity.
Qed.

Lemma safe_list_cases_witness :
  safe_list (VList [VInt 1; VInt 2; VInt 3]) VNone = VList [VInt 1; VInt 2; VInt 3] /\
  safe_list (VStr "x") VNone = VList [VStr "x"] /\
  safe_list VNone VNone = VList [] /\
  safe_list VNone (VList [VStr "default"]) = VList [VStr "default"].
Proof.
  split; [|split; [|split]].
  - apply (proj1 (safe_list_cases (VList [VInt 1; VInt 2; VInt 3]) VNone)). reflexivity.
  - apply (proj1 (proj2 (safe_list_cases (VStr "x") VNone))); [reflexivity | discriminate].
  - apply (proj2 (proj2 (safe_list_cases VNone VNone))). reflexivity.
  - apply (proj2 (proj2 (safe_list_cases VNone (VList [VStr "default"])))). reflexivity.
Defined.

(** ** [load_json] *)

Lemma loads_raises (text : string) (e : exn) :
  Json.loads text = Raise e -> e = JSONDecodeError.
Proof.
  unfold Json.loads.
  destruct (Json.scan_value _ _) as [[v r]|]; [|congruence].
  destruct (Json.skip_ws r); congruence.
Qed.

Lemma load_json_text (fs : gmap string node) (path text : string) :
  fs !! path = Some (Text text) ->
  load_json fs path =
  match Json.loads text with
  | Ok v => Ok v
  | Raise _ => Ok VNone
  end.
Proof.
  intros H. unfold load_json, path_exists, read_text. rewrite H.
  rewrite bool_decide_eq_true_2 by eauto. simpl.
  destruct (Json.loads text) as [v|e] eqn:E; simpl; [reflexivity|].
  apply loads_raises in E as ->. reflexivity.
Qed.

Lemma load_json_missing (fs : gmap string node) (path : string) :
  fs !! path = None -> load_json fs path = Ok VNone.
Proof.
  intros H. unfold load_json, path_exists. rewrite H.
  rewrite bool_decide_eq_false_2; [reflexivity|]. intros [x Hx]. discriminate.
Qed.

Lemma load_json_unreadable (fs : gmap string node) (path : string) :
  fs !! path = Some Garbled \/ fs !! path = Some Denied ->
  load_json fs path = Ok VNone.
Proof.
  intros [H|H]; unfold load_json, path_exists, read_text; rewrite H;
    rewrite bool_decide_eq_true_2 by eauto; reflexivity.
Qed.

(** No exception leaves [load_json]. *)
Lemma load_json_returns (fs : gmap string node) (path : string) :
  returns (load_json fs path).
Proof.
  destruct (fs !! path) as [[text| |]|] eqn:H.
  - rewrite (load_json_text _ _ _ H). destruct (Json.loads text); eexists; reflexivity.
  - exists VNone. apply load_json_unreadable. auto.
  - exists VNone. apply load_json_unreadable. auto.
  - exists VNone. apply load_json_missing. exact H.
Qed.



(** ** [validate_required_fields] and the construction of a monster *)

Lemma missing_fields_dict (d : list (key * value)) (fields : list string) :
  missing_fields (VDict d) fields = Ok (List.filter (fun f => negb (has_key d f)) fields).
Proof.
  induction fields as [|f fields IH]; [reflexivity|].
  simpl. rewrite IH. simpl. unfold has_key. destruct (bool_decide _); reflexivity.
Qed.

Lemma validate_dict (d : list (key * value)) (fields : list string) (entity_name : string) :
  validate_required_fields (VDict d) fields entity_name = Ok (forallb (has_key d) fields).
Proof.
  unfold validate_required_fields. rewrite missing_fields_dict. simpl.
  induction fields as [|f fields IH]; [reflexivity|].
  simpl. destruct (has_key d f); simpl; [exact IH | reflexivity].
Qed.

Lemma has_key_field (d : list (key * value)) (k : string) :
  has_key d k = true -> lookup d k = Some (field d k).
Proof.
  unfold has_key, field. intros H. apply bool_decide_eq_true_1 in H as [v ->]. reflexivity.
Qed.

(** With the six keys bound only the two integer coercions can fail. *)
Lemma build_monster_dict (d : list (key * value)) :
  has_required_keys (VDict d) = true ->
  build_monster (VDict d) =
  (hp ← safe_int (field d "hp") 0;
   exp ← safe_int (field d "exp") 0;
   Ok (Monster.make (str (field d "id")) (str (field d "name")) hp exp
         (str (field d "loot")) (str (field d "location")) (field d "difficulty"))).
Proof.
  unfold has_required_keys, required_fields. simpl.
  rewrite !andb_true_iff. intros (Hid & Hname & Hhp & Hexp & Hloot & Hloc & _).
  unfold build_monster, getitem, get.
  rewrite (has_key_field _ _ Hid), (has_key_field _ _ Hname), (has_key_field _ _ Hhp),
    (has_key_field _ _ Hexp), (has_key_field _ _ Hloot), (has_key_field _ _ Hloc).
  simpl. destruct (safe_int (field d "hp") 0); simpl; [|reflexivity].
  destruct (safe_int (field d "exp") 0); reflexivity.
Qed.

Lemma build_monster_raises (d : list (key * value)) (e : exn) :
  has_required_keys (VDict d) = true ->
  build_monster (VDict d) = Raise e ->
  e = OverflowError /\
  (overflows (field d "hp") = true \/ overflows (field d "exp") = true).
Proof.
  intros H. rewrite (build_monster_dict d H).
  destruct (safe_int (field d "hp") 0) as [hp|e1] eqn:E1; simpl.
  - destruct (safe_int (field d "exp") 0) as [exp|e2] eqn:E2; simpl; [discriminate|].
    intros [= <-]. split; [|right; eapply safe_int_raises; eauto].
    rewrite safe_int_cases in E2. destruct (Py.int _) as [|[]]; congruence.
  - intros [= <-]. split; [|left; eapply safe_int_raises; eauto].
    rewrite safe_int_cases in E1. destruct (Py.int _) as [|[]]; congruence.
Qed.


(** ** [load_monsters] *)

Lemma load_loop_cons (item : value) (data : list value) (monsters : list Monster.t) :
  load_loop (item :: data) monsters =
  (valid ← validate_required_fields item required_fields "Monster";
   if negb (valid : bool) then load_loop data monsters
   else
     monsters ←
       try_except
         (monster ← build_monster item;
          Ok ((monsters ++ [monster])%list))
         [([Exception], fun _ => get item "id" (VStr "unknown");; Ok monsters)];
     load_loop data monsters).
Proof. reflexivity. Qed.

(** One turn of the loop on a record. *)
Lemma load_loop_step (d : list (key * value)) (data : list value) (monsters : list Monster.t) :
  load_loop (VDict d :: data) monsters =
  load_loop data (monsters ++ option_list (entity (VDict d)))%list.
Proof.
  rewrite load_loop_cons, validate_dict.
  change (forallb (has_key d) required_fields) with (has_required_keys (VDict d)).
  unfold entity.
  destruct (has_required_keys (VDict d)) eqn:H; cbn [mbind res_bind negb].
  - destruct (build_monster (VDict d)) as [m|e] eqn:E; cbn [try_except mbind res_bind option_list].
    + reflexivity.
    + destruct (build_monster_raises d e H E) as [-> _].
      cbn. rewrite app_nil_r. reflexivity.
  - cbn. rewrite app_nil_r. reflexivity.
Qed.

Lemma load_loop_records (records : list value) (monsters : list Monster.t) :
  Forall (fun r => is_dict r = true) records ->
  load_loop records monsters = Ok (monsters ++ omap entity records)%list.
Proof.
  intros H. revert monsters. induction H as [|r records Hr _ IH]; intros monsters.
  - simpl. rewrite app_nil_r. reflexivity.
  - destruct r as [| | | | | |d]; try discriminate.
    rewrite load_loop_step, IH. f_equal.
    simpl omap. destruct (entity (VDict d)); simpl.
    + rewrite <- app_assoc. reflexivity.
    + rewrite app_nil_r. reflexivity.
Qed.


(** ** [get_monster_by_id] *)




(** ** A catalogue of records *)

Section Catalogue.

(** The monsters file holds a list, and every element of it is a mapping. *)
Variable fs : gmap string node.
Variable records : list value.
Hypothesis document : load_json fs MONSTERS_FILE = Ok (VList records).
Hypothesis mappings : Forall (fun r => is_dict r = true) records.





End Catalogue.





(** ** Substrings *)

Lemma starts_with_spec (p s : string) :
  starts_with p s = true <-> exists r, s = p ++ r.
Proof.
  revert s. induction p as [|a p IH]; intros s; simpl.
  - split; [intros _; exists s; reflexivity | reflexivity].
  - destruct s as [|b s]; [split; [discriminate | intros [r [=]]]|].
    rewrite andb_true_iff, bool_decide_eq_true, IH. split.
    + intros [-> [r ->]]. exists r. reflexivity.
    + intros [r [= -> ->]]. eauto.
Qed.

Lemma contains_spec (sub s : string) :
  contains sub s = true <-> exists before behind, s = before ++ sub ++ behind.
Proof.
  induction s as [|c s IH]; simpl; rewrite orb_true_iff, starts_with_spec.
  - split.
    + intros [[r H]|H]; [|discriminate]. exists EmptyString, r. exact H.
    + intros ([|c before] & behind & H); [left; eauto | discriminate].
  - rewrite IH. split.
    + intros [[r H]|(before & behind & ->)].
      * exists EmptyString, r. exact H.
      * exists (String c before), behind. reflexivity.
    + intros ([|c' before] & behind & H).
      * left. eauto.
      * right. injection H as -> ->. eauto.
Qed.

Lemma lower_app (a b : string) : lower (a ++ b) = lower a ++ lower b.
Proof. induction a as [|c a IH]; simpl; [reflexivity | rewrite IH; reflexivity]. Qed.

Lemma lower_app_inv (s a b : string) :
  lower s = a ++ b -> exists s1 s2, s = s1 ++ s2 /\ lower s1 = a /\ lower s2 = b.
Proof.
  revert s. induction a as [|c a IH]; intros s H.
  - exists EmptyString, s. auto.
  - destruct s as [|c' s]; [discriminate|]. simpl in H. injection H as Hc H.
    destruct (IH s H) as (s1 & s2 & -> & <- & <-).
    exists (String c' s1), s2. simpl. rewrite Hc. auto.
Qed.

(** The test of the code, lowering both sides and searching, decides the
    occurrence up to case. *)
Lemma contains_lower (q s : string) :
  contains (lower q) (lower s) = true <-> ci_substring q s.
Proof.
  rewrite contains_spec. unfold ci_substring. split.
  - intros (before & behind & H).
    apply lower_app_inv in H as (s1 & s' & -> & _ & H).
    apply lower_app_inv in H as (s2 & s3 & -> & H & _).
    exists s1, s2, s3. auto.
  - intros (before & piece & behind & -> & H).
    exists (lower before), (lower behind). rewrite !lower_app, H. reflexivity.
Qed.


(** ** [search_monsters] *)



Example search_monsters_sample : search_monsters catalogue_fs "tHa" = Ok [rat].
Proof. vm_compute. reflexivity. Qed.

(** C3 as stated fails: the query of two spaces is blank, the collection has
    two monsters, and the search returns none of them. *)
Lemma search_monsters_blank_query_filters :
  blank "  " = true /\
  load_monsters catalogue_fs = Ok [dragon; rat] /\
  search_monsters catalogue_fs "  " = Ok [].
Proof. repeat split; vm_compute; reflexivity. Qed.

(** C3, amended.  For the empty query [search_monsters] returns the full
    loaded collection unchanged, not an empty result. *)
Theorem search_monsters_empty_query (fs : gmap string node) :
  search_monsters fs EmptyString = load_monsters fs.
Proof. reflexivity. Qed.

(** A query that is not empty is searched for, blank or not: on the catalogue
    of one monster whose texts are empty it finds nothing. *)
Lemma search_monsters_nonempty_query (q : string) :
  q <> EmptyString ->
  load_monsters blank_fs = Ok [nameless] /\ search_monsters blank_fs q = Ok [].
Proof.
  intros Hq. assert (Hload : load_monsters blank_fs = Ok [nameless]) by (vm_compute; reflexivity).
  split; [exact Hload|].
  unfold search_monsters. destruct q as [|c q]; [congruence|].
  simpl truthy. cbn [negb]. rewrite Hload. reflexivity.
Qed.

(** ** [load_server_info] *)

(** C10.  [load_server_info] checks no required field: whenever the document
    is a mapping that is not empty it returns a [ServerInfo], each text field
    being the text of the value under its key and, when the key is absent, its
    default: id [server_001], name [Fibula Project], version [7.1], an empty
    description, an empty mapping of rates.  It returns [None] exactly when
    the document is absent, is not a mapping, or is the empty mapping. *)
Theorem load_server_info_defaults (fs : gmap string node) :
  exists data,
    load_json fs SERVER_INFO_FILE = Ok data /\
    (forall d, data = VDict d -> d <> [] ->
       exists info,
         load_server_info fs = Ok (Some info) /\
         ServerInfo.id info = str (default (VStr "server_001") (lookup d "id")) /\
         ServerInfo.name info = str (default (VStr "Fibula Project") (lookup d "name")) /\
         ServerInfo.description info = str (default (VStr EmptyString) (lookup d "description")) /\
         ServerInfo.rates info = default (VDict []) (lookup d "rates") /\
         ServerInfo.version info = str (default (VStr "7.1") (lookup d "version")) /\
         ServerInfo.website info = default VNone (lookup d "website") /\
         ServerInfo.discord info = default VNone (lookup d "discord") /\
         ServerInfo.additional_info info = default VNone (lookup d "additional_info")) /\
    (load_server_info fs = Ok None <->
       data = VNone \/ is_dict data = false \/ data = VDict []).
Proof.
  destruct (load_json_returns fs SERVER_INFO_FILE) as [data Hdata].
  exists data. split; [exact Hdata|].
  unfold load_server_info. rewrite Hdata. cbn [mbind res_bind]. split.
  - intros d -> Hd. destruct d as [|kv d]; [congruence|].
    eexists. split; [reflexivity|]. cbn. repeat split.
  - destruct data as [|b|z|x|s|l|d]; cbn [truthy is_dict negb orb];
      try (rewrite orb_true_r; split; [auto | reflexivity]).
    + split; [auto | reflexivity].
    + destruct d as [|kv d]; cbn.
      * split; [auto | reflexivity].
      * split; [discriminate | intros [H|[H|H]]; discriminate].
Qed.

Lemma load_server_info_defaults_witness :
  exists info,
    load_server_info server_fs = Ok (Some info) /\
    ServerInfo.id info = "server_001" /\
    ServerInfo.name info = "None" /\
    ServerInfo.version info = "7.1".
Proof.
  destruct (load_server_info_defaults server_fs) as (data & Hdata & Hsome & _).
  assert (E : data = VDict [(KStr "name", VNone); (KStr "rates", VDict [(KStr "exp", VInt 5)])]).
  { assert (H : load_json server_fs SERVER_INFO_FILE =
                Ok (VDict [(KStr "name", VNone); (KStr "rates", VDict [(KStr "exp", VInt 5)])]))
      by (vm_compute; reflexivity).
    congruence. }
  destruct (Hsome _ E) as (info & Hload & Hid & Hname & _ & _ & Hversion & _); [discriminate|].
  exists info. auto.
Defined.

(** * The round trip through a file *)

(** ** Strings *)

Lemma append_nil_l (a : string) : EmptyString ++ a = a.
Proof. reflexivity. Qed.

Lemma append_cons (c : ascii) (a b : string) : String c a ++ b = String c (a ++ b).
Proof. reflexivity. Qed.

Lemma append_assoc (a b c : string) : (a ++ b) ++ c = a ++ (b ++ c).
Proof.
  induction a as [|x a IH]; [reflexivity|].
  rewrite !append_cons, IH. reflexivity.
Qed.

Lemma append_nil_r (a : string) : a ++ EmptyString = a.
Proof.
  induction a as [|x a IH]; [reflexivity|].
  rewrite append_cons, IH. reflexivity.
Qed.

Lemma length_append (a b : string) :
  String.length (a ++ b) = (String.length a + String.length b)%nat.
Proof.
  induction a as [|x a IH]; [reflexivity|].
  rewrite append_cons. simpl. rewrite IH. reflexivity.
Qed.

(** Appended texts, associated to the right with literal heads exposed. *)
Ltac norm_append :=
  repeat (rewrite append_assoc || rewrite append_cons || rewrite append_nil_l).

(** ** String literals *)

Lemma scan_pieces_escape (c : ascii) (s : string) :
  Json.scan_pieces (Json.escape_char c ++ s) =
  '(ps, r) ← Json.scan_pieces s; Some (piece_of c :: ps, r).
Proof.
  destruct c as [[] [] [] [] [] [] [] []]; reflexivity.
Qed.

Lemma assemble_piece_of (c : ascii) (ps : list Json.piece) :
  Json.assemble (piece_of c :: ps) = String c (Json.assemble ps).
Proof.
  destruct c as [[] [] [] [] [] [] [] []]; try reflexivity;
    destruct ps as [|[|] ps]; reflexivity.
Qed.

Lemma scan_pieces_encode (s rest : string) :
  Json.scan_pieces (concat_map Json.escape_char s ++ String quote2 rest) =
  Some (List.map piece_of (list_ascii_of_string s), rest).
Proof.
  induction s as [|c s IH]; [reflexivity|].
  cbn [concat_map]. rewrite append_assoc, scan_pieces_escape, IH. reflexivity.
Qed.

Lemma assemble_pieces (s : string) :
  Json.assemble (List.map piece_of (list_ascii_of_string s)) = s.
Proof.
  induction s as [|c s IH]; [reflexivity|].
  simpl List.map. rewrite assemble_piece_of, IH. reflexivity.
Qed.

(** A string literal reads back as the str it was written from. *)
Lemma scan_string_encode (s rest : string) :
  Json.scan_string (concat_map Json.escape_char s ++ String quote2 rest) = Some (s, rest).
Proof.
  unfold Json.scan_string. rewrite scan_pieces_encode. simpl.
  rewrite assemble_pieces. reflexivity.
Qed.

(** ** Numbers *)

Lemma take_digits_stop (rest : string) :
  ends_number rest = true -> Json.take_digits rest = (EmptyString, rest).
Proof.
  destruct rest as [|c rest]; [reflexivity|].
  unfold ends_number. rewrite negb_true_iff, !orb_false_iff.
  intros [[[H _] _] _]. simpl. rewrite H. reflexivity.
Qed.

Lemma take_digits_uint (d : Decimal.uint) (rest : string) :
  ends_number rest = true ->
  Json.take_digits (NilEmpty.string_of_uint d ++ rest) = (NilEmpty.string_of_uint d, rest).
Proof.
  intros H. induction d as [|d IH|d IH|d IH|d IH|d IH|d IH|d IH|d IH|d IH|d IH];
    cbn [NilEmpty.string_of_uint];
    [apply take_digits_stop; exact H|..];
    rewrite append_cons; cbn [Json.take_digits]; rewrite IH; reflexivity.
Qed.

Lemma digits_to_N_string (n : N) : Json.digits_to_N (string_of_N n) = n.
Proof.
  unfold Json.digits_to_N, string_of_N. rewrite NilEmpty.usu.
  apply DecimalN.Unsigned.of_to.
Qed.

(** The digits of a positive number do not start with a zero. *)
Lemma to_uint_head (p : positive) :
  match Pos.to_uint p with
  | Decimal.Nil | Decimal.D0 _ => False
  | _ => True
  end.
Proof.
  pose proof (DecimalPos.Unsigned.to_uint_nonnil p) as Hnil.
  pose proof (DecimalPos.Unsigned.to_uint_nonzero p) as Hzero.
  assert (Hnorm : Decimal.unorm (Pos.to_uint p) = Pos.to_uint p).
  { rewrite <- DecimalPos.Unsigned.to_of, DecimalPos.Unsigned.of_to. reflexivity. }
  destruct (Pos.to_uint p) as [|u| | | | | | | | |]; try exact I; [congruence|].
  rewrite DecimalFacts.unorm_D0 in Hnorm.
  destruct (Decimal.uint_eq_dec u Decimal.Nil) as [->|Hu]; [apply Hzero; reflexivity|].
  pose proof (DecimalFacts.nb_digits_unorm u Hu) as Hlen.
  rewrite Hnorm in Hlen. simpl in Hlen. lia.
Qed.

Lemma no_fraction (rest : string) :
  ends_number rest = true -> Json.scan_fraction rest = (None, rest).
Proof.
  destruct rest as [|c rest]; [reflexivity|].
  unfold ends_number. rewrite negb_true_iff, !orb_false_iff.
  intros [[[_ H] _] _]. unfold Json.scan_fraction. simpl.
  apply bool_decide_eq_false in H.
  rewrite bool_decide_eq_false_2 by congruence. reflexivity.
Qed.

Lemma no_exponent (rest : string) :
  ends_number rest = true -> Json.scan_exponent rest = (None, rest).
Proof.
  destruct rest as [|c rest]; [reflexivity|].
  unfold ends_number. rewrite negb_true_iff, !orb_false_iff.
  intros [[_ H1] H2]. simpl. rewrite H1, H2. reflexivity.
Qed.

(** The text of a natural number, followed by what ends a number, scans as
    its digits. *)
Lemma scan_integer_string (n : N) (rest : string) :
  ends_number rest = true ->
  Json.scan_integer (string_of_N n ++ rest) = Some (string_of_N n, rest) /\
  Json.after "-" (string_of_N n ++ rest) = None.
Proof.
  intros H. destruct n as [|p]; [split; reflexivity|].
  unfold string_of_N. cbn [N.to_uint].
  pose proof (to_uint_head p) as Hhead.
  pose proof (take_digits_uint (Pos.to_uint p) rest H) as Htake.
  destruct (Pos.to_uint p); try contradiction;
    cbn [NilEmpty.string_of_uint] in *; rewrite append_cons in *;
    (split; [unfold Json.scan_integer; rewrite Htake|]; reflexivity).
Qed.

Lemma scan_magnitude_N (neg : bool) (n : N) (rest : string) :
  ends_number rest = true ->
  Json.scan_magnitude neg (string_of_N n ++ rest) =
  Some (VInt (if neg then - Z.of_N n else Z.of_N n), rest).
Proof.
  intros H. unfold Json.scan_magnitude.
  rewrite (proj1 (scan_integer_string n rest H)). cbn [mbind option_bind].
  rewrite (no_fraction rest H), (no_exponent rest H), digits_to_N_string. reflexivity.
Qed.

(** An int reads back from its decimal text. *)
Lemma scan_number_int (z : Z) (rest : string) :
  ends_number rest = true ->
  Json.scan_number (string_of_Z z ++ rest) = Some (VInt z, rest).
Proof.
  intros H. unfold Json.scan_number. destruct z as [|p|p]; unfold string_of_Z.
  - rewrite (proj2 (scan_integer_string _ rest H)). apply (scan_magnitude_N false 0 rest H).
  - rewrite (proj2 (scan_integer_string _ rest H)). apply (scan_magnitude_N false (Npos p) rest H).
  - rewrite append_cons. change (Json.after "-" (String "-" ?s)) with (Some s).
    apply (scan_magnitude_N true (Npos p) rest H).
Qed.

(** The text of an int starts with a digit or with the minus sign. *)
Lemma string_of_Z_head (z : Z) :
  exists c t, string_of_Z z = String c t /\ (is_digit c = true \/ c = "-"%char).
Proof.
  destruct z as [|p|p].
  - exists "0"%char, EmptyString. auto.
  - unfold string_of_Z, string_of_N. cbn [Z.to_N N.to_uint].
    pose proof (to_uint_head p) as Hhead.
    destruct (Pos.to_uint p); try contradiction; cbn [NilEmpty.string_of_uint]; eauto.
  - unfold string_of_Z. eauto.
Qed.

Lemma scan_constant_int (z : Z) (rest : string) :
  ends_number rest = true ->
  Json.scan_constant (string_of_Z z ++ rest) = Some (VInt z, rest).
Proof.
  intros H. unfold Json.scan_constant.
  pose proof (scan_number_int z rest H) as Hnum.
  destruct (string_of_Z_head z) as (c & t & E & Hc). rewrite E in *. rewrite append_cons in *.
  assert (Hn : Json.after "null" (String c (t ++ rest)) = None /\
               Json.after "true" (String c (t ++ rest)) = None /\
               Json.after "false" (String c (t ++ rest)) = None).
  { destruct Hc as [Hc| ->]; [|repeat split; reflexivity].
    repeat split; simpl; rewrite bool_decide_eq_false_2; try reflexivity;
      intros <-; discriminate. }
  destruct Hn as (-> & -> & ->). rewrite Hnum. reflexivity.
Qed.

Lemma scan_value_int (fuel : nat) (z : Z) (rest : string) :
  ends_number rest = true ->
  Json.scan_value (S fuel) (string_of_Z z ++ rest) = Some (VInt z, rest).
Proof.
  intros H. pose proof (scan_constant_int z rest H) as Hc.
  destruct (string_of_Z_head z) as (c & t & E & Hd). rewrite E in *. rewrite append_cons in *.
  cbn [Json.scan_value].
  rewrite !bool_decide_eq_false_2; [exact Hc|..];
    destruct Hd as [Hd| ->]; try discriminate; intros ->; discriminate.
Qed.

(** ** Layout *)

Lemma skip_ws_spaces (n : nat) (s : string) :
  Json.skip_ws (repeat_string n "  " ++ s) = Json.skip_ws s.
Proof.
  induction n as [|n IH]; [reflexivity|].
  cbn [repeat_string]. rewrite append_assoc, !append_cons, append_nil_l.
  cbn [Json.skip_ws]. exact IH.
Qed.

Lemma skip_ws_newline_indent (level : nat) (s : string) :
  Json.skip_ws (Json.newline_indent level ++ s) = Json.skip_ws s.
Proof.
  unfold Json.newline_indent. rewrite append_cons. cbn [Json.skip_ws].
  apply skip_ws_spaces.
Qed.

Lemma ends_number_newline_indent (level : nat) (s : string) :
  ends_number (Json.newline_indent level ++ s) = true.
Proof. reflexivity. Qed.

Lemma opens_value_encode (level : nat) (v : value) :
  plain v = true -> opens_value (Json.encode level v).
Proof.
  destruct v as [|[]|z|x|s|l|d]; intros Hp; try discriminate Hp;
    try (eexists _, _; split; [reflexivity|]; repeat split; discriminate).
  cbn [Json.encode]. destruct (string_of_Z_head z) as (c & t & -> & Hc).
  exists c, t. split; [reflexivity|].
  destruct Hc as [Hc| ->]; repeat split; try discriminate;
    try (intros ->; discriminate).
  destruct c as [[] [] [] [] [] [] [] []]; try discriminate Hc; reflexivity.
Qed.

Lemma skip_ws_opens (s rest : string) :
  opens_value s -> Json.skip_ws (s ++ rest) = s ++ rest.
Proof.
  intros (c & t & -> & Hc & _). rewrite append_cons. cbn [Json.skip_ws].
  rewrite Hc. reflexivity.
Qed.

Lemma after_opens (s rest : string) :
  opens_value s ->
  Json.after "]" (s ++ rest) = None /\ Json.after "}" (s ++ rest) = None.
Proof.
  intros (c & t & -> & _ & H1 & H2 & _). rewrite append_cons. simpl.
  rewrite !bool_decide_eq_false_2 by congruence. auto.
Qed.

(** ** Lists *)

Lemma scan_elements_encode (level : nat) (xs : list value) :
  Forall (fun x => plain x = true /\ reads_back (S level) x) xs ->
  forall x fuel rest,
    plain x = true -> reads_back (S level) x ->
    (list_sum (List.map (fun x => S (size x)) (x :: xs)) < fuel)%nat ->
    Json.scan_elements fuel
      (Json.encode (S level) x ++
       Json.sep_by (String "," (Json.newline_indent (S level)))
         (List.map (Json.encode (S level)) xs) ++
       Json.newline_indent level ++ String "]" rest) = Some (x :: xs, rest).
Proof.
  induction 1 as [|y ys [Hpy Hry] _ IH]; intros x fuel rest Hpx Hrx Hfuel;
    (destruct fuel as [|fuel]; [simpl in Hfuel; lia|]);
    simpl in Hfuel; cbn [Json.scan_elements List.map Json.sep_by].
  - rewrite append_nil_l.
    rewrite Hrx by (try apply ends_number_newline_indent; lia).
    cbn [mbind option_bind]. rewrite skip_ws_newline_indent. reflexivity.
  - rewrite !append_assoc, append_cons.
    rewrite Hrx by (try reflexivity; lia).
    cbn [mbind option_bind].
    change (Json.skip_ws (String "," ?s)) with (String "," s).
    change (Json.after "]" (String "," ?s)) with (@None string).
    change (Json.after "," (String "," ?s)) with (Some s).
    cbv beta iota zeta.
    rewrite skip_ws_newline_indent, skip_ws_opens by (apply opens_value_encode; exact Hpy).
    rewrite IH by (try assumption; simpl; lia).
    reflexivity.
Qed.

(** ** Mappings *)

Lemma scan_members_encode (level : nat) (kvs : list (key * value)) :
  Forall (fun kv => is_str_key (fst kv) = true /\ plain (snd kv) = true /\
                    reads_back (S level) (snd kv)) kvs ->
  forall k v fuel rest,
    plain v = true -> reads_back (S level) v ->
    (list_sum (List.map (fun kv => S (size (snd kv))) ((KStr k, v) :: kvs)) < fuel)%nat ->
    Json.scan_members fuel
      (member_text level (KStr k, v) ++
       Json.sep_by (String "," (Json.newline_indent (S level)))
         (List.map (member_text level) kvs) ++
       Json.newline_indent level ++ String "}" rest) =
    Some ((k, v) :: List.map (fun kv => (Json.key_str (fst kv), snd kv)) kvs, rest).
Proof.
  induction 1 as [|[k' v'] kvs (Hk' & Hpv' & Hrv') _ IH]; intros k v fuel rest Hpv Hrv Hfuel;
    (destruct fuel as [|fuel]; [simpl in Hfuel; lia|]);
    simpl in Hfuel; cbn [List.map Json.sep_by];
    unfold member_text at 1, Json.encode_str; cbn [fst snd Json.key_str];
    norm_append;
    cbn [Json.scan_members]; rewrite bool_decide_eq_true_2 by reflexivity;
    rewrite scan_string_encode; cbn [mbind option_bind];
    change (Json.skip_ws (String ":" ?s)) with (String ":" s);
    change (Json.after ":" (String ":" ?s)) with (Some s);
    cbv beta iota;
    change (Json.skip_ws (String " " ?s)) with (Json.skip_ws s);
    rewrite skip_ws_opens by (apply opens_value_encode; exact Hpv).
  - rewrite Hrv by (try apply ends_number_newline_indent; lia).
    cbn [mbind option_bind]. rewrite skip_ws_newline_indent. reflexivity.
  - rewrite Hrv by (try reflexivity; lia).
    cbn [mbind option_bind].
    change (Json.skip_ws (String "," ?s)) with (String "," s).
    change (Json.after "}" (String "," ?s)) with (@None string).
    change (Json.after "," (String "," ?s)) with (Some s).
    cbv beta iota zeta.
    rewrite skip_ws_newline_indent.
    destruct k' as [| | | |k']; try discriminate Hk'.
    assert (Hopen : forall s, Json.skip_ws (member_text level (KStr k', v') ++ s) =
                              member_text level (KStr k', v') ++ s) by reflexivity.
    rewrite Hopen.
    rewrite IH by (try assumption; simpl; simpl in Hfuel; lia).
    reflexivity.
Qed.

Lemma setitem_fresh (d : list (key * value)) (k : key) (v : value) :
  k ∉ List.map fst d -> Json.setitem d k v = (d ++ [(k, v)])%list.
Proof.
  induction d as [|[k' v'] d IH]; intros H; [reflexivity|].
  simpl in *. rewrite not_elem_of_cons in H. destruct H as [Hk Hd].
  rewrite bool_decide_eq_false_2 by congruence. rewrite IH by exact Hd. reflexivity.
Qed.

Lemma dict_of_pairs_go (d acc : list (key * value)) :
  Forall (fun kv => is_str_key (fst kv) = true) d ->
  NoDup (List.map fst (acc ++ d)%list) ->
  fold_left (fun a kv => Json.setitem a (KStr (fst kv)) (snd kv))
    (List.map (fun kv => (Json.key_str (fst kv), snd kv)) d) acc = (acc ++ d)%list.
Proof.
  intros Hd. revert acc. induction Hd as [|[k v] d Hk _ IH]; intros acc Hnd.
  - simpl. rewrite app_nil_r. reflexivity.
  - destruct k as [| | | |k]; try discriminate Hk.
    cbn [List.map fold_left fst snd Json.key_str].
    rewrite setitem_fresh.
    + rewrite IH; rewrite <- app_assoc; [reflexivity | exact Hnd].
    + rewrite map_app in Hnd. apply NoDup_app in Hnd as (_ & Hnd & _).
      intros Hin. apply (Hnd _ Hin). left.
Qed.

Lemma dict_of_pairs_plain (d : list (key * value)) :
  Forall (fun kv => is_str_key (fst kv) = true) d ->
  NoDup (List.map fst d) ->
  Json.dict_of_pairs (List.map (fun kv => (Json.key_str (fst kv), snd kv)) d) = d.
Proof. intros Hd Hnd. apply (dict_of_pairs_go d [] Hd Hnd). Qed.

(** ** Values *)

Lemma forallb_Forall {A} (f : A -> bool) (l : list A) :
  forallb f l = true -> Forall (fun x => f x = true) l.
Proof.
  induction l as [|x l IH]; simpl; [constructor|].
  rewrite andb_true_iff. intros [Hx Hl]. constructor; auto.
Qed.

Lemma plain_reads_back (v : value) :
  plain v = true -> forall level, reads_back level v.
Proof.
  induction v as [|b|z|x|s|l IH|d IH] using value_ind';
    intros Hp level fuel rest Hfuel Hrest;
    (destruct fuel as [|fuel]; [lia|]); try discriminate Hp.
  - reflexivity.
  - destruct b; reflexivity.
  - apply scan_value_int. exact Hrest.
  - cbn [Json.encode Json.scan_value]. unfold Json.encode_str. norm_append.
    cbn [Json.scan_value]. rewrite bool_decide_eq_true_2 by reflexivity.
    rewrite scan_string_encode. reflexivity.
  - cbn [plain] in Hp. apply forallb_Forall in Hp.
    assert (Hall : Forall (fun x => plain x = true /\ reads_back (S level) x) l).
    { clear Hfuel. induction l as [|x l IHl]; constructor.
      - inversion Hp; subst. inversion IH; subst. auto.
      - inversion Hp; subst. inversion IH; subst. auto. }
    cbn [Json.encode]. destruct Hall as [|x xs [Hpx Hrx] Hxs].
    + reflexivity.
    + cbn [List.map Json.items]. norm_append. cbn [Json.scan_value].
      rewrite bool_decide_eq_false_2 by discriminate.
      rewrite bool_decide_eq_true_2 by reflexivity.
      cbv zeta. rewrite skip_ws_newline_indent.
      rewrite skip_ws_opens by (apply opens_value_encode; exact Hpx).
      rewrite (proj1 (after_opens _ _ (opens_value_encode (S level) x Hpx))).
      rewrite (scan_elements_encode level xs Hxs x fuel rest Hpx Hrx)
        by (simpl in Hfuel; simpl; lia).
      reflexivity.
  - cbn [plain] in Hp. apply andb_true_iff in Hp as [Hp Hnd].
    apply bool_decide_eq_true in Hnd.
    apply forallb_Forall in Hp.
    assert (Hkeys : Forall (fun kv => is_str_key (fst kv) = true) d).
    { eapply Forall_impl; [exact Hp|]. intros kv H. apply andb_true_iff in H. tauto. }
    assert (Hall : Forall (fun kv => is_str_key (fst kv) = true /\ plain (snd kv) = true /\
                                     reads_back (S level) (snd kv)) d).
    { clear Hfuel Hnd Hkeys. induction d as [|kv d IHd]; constructor.
      - inversion Hp as [|? ? H1 H2]; subst. inversion IH; subst.
        apply andb_true_iff in H1 as [? ?]. auto.
      - inversion Hp; subst. inversion IH; subst. auto. }
    cbn [Json.encode].
    change (fun kv : key * value =>
              Json.encode_str (Json.key_str (fst kv)) ++ ": " ++ Json.encode (S level) (snd kv))
      with (member_text level).
    destruct Hall as [|[k v] kvs (Hk & Hpv & Hrv) Hkvs].
    + reflexivity.
    + destruct k as [| | | |k]; try discriminate Hk.
      rewrite <- (dict_of_pairs_plain _ Hkeys Hnd) at 2.
      cbn [List.map Json.items]. norm_append. cbn [Json.scan_value].
      rewrite !bool_decide_eq_false_2 by discriminate.
      rewrite bool_decide_eq_true_2 by reflexivity.
      cbv zeta. rewrite skip_ws_newline_indent.
      assert (Hopen : forall s, Json.skip_ws (member_text level (KStr k, v) ++ s) =
                                member_text level (KStr k, v) ++ s) by reflexivity.
      assert (Hafter : forall s, Json.after "}" (member_text level (KStr k, v) ++ s) = None)
        by reflexivity.
      rewrite Hopen, Hafter.
      rewrite (scan_members_encode level kvs Hkvs k v fuel rest Hpv Hrv)
        by (simpl in Hfuel; simpl; lia).
      reflexivity.
Qed.

(** ** The fuel of [loads] *)

Lemma length_sep_by (sep : string) (l : list string) :
  (list_sum (List.map (fun s => S (String.length s)) l) <=
   String.length (Json.sep_by (String "," sep) l))%nat.
Proof.
  induction l as [|x l IH]; [reflexivity|].
  cbn [List.map Json.sep_by]. simpl list_sum.
  rewrite append_cons. cbn [String.length]. rewrite !length_append. lia.
Qed.

Lemma length_items (level : nat) (l : list string) :
  (list_sum (List.map (fun s => S (String.length s)) l) <=
   String.length (Json.items level l))%nat.
Proof.
  destruct l as [|x l]; [reflexivity|].
  cbn [List.map Json.items]. simpl list_sum. unfold Json.newline_indent at 1.
  rewrite append_cons. cbn [String.length]. rewrite !length_append.
  pose proof (length_sep_by (Json.newline_indent (S level)) l). lia.
Qed.

Lemma list_sum_le {A} (f g : A -> nat) (l : list A) :
  Forall (fun x => (f x <= g x)%nat) l ->
  (list_sum (List.map f l) <= list_sum (List.map g l))%nat.
Proof. induction 1; simpl; lia. Qed.

Lemma size_le_length (v : value) :
  plain v = true -> forall level, (size v <= String.length (Json.encode level v))%nat.
Proof.
  induction v as [|b|z|x|s|l IH|d IH] using value_ind'; intros Hp level;
    try discriminate Hp.
  - simpl. lia.
  - destruct b; simpl; lia.
  - cbn [Json.encode size]. destruct (string_of_Z_head z) as (c & t & -> & _). simpl. lia.
  - cbn [Json.encode size]. unfold Json.encode_str. simpl. lia.
  - cbn [plain] in Hp. apply forallb_Forall in Hp.
    cbn [Json.encode size]. norm_append. cbn [String.length].
    rewrite length_append.
    pose proof (length_items level (List.map (Json.encode (S level)) l)) as Hlen.
    rewrite List.map_map in Hlen.
    assert (Hle : (list_sum (List.map (fun x => S (size x)) l) <=
                   list_sum (List.map (fun x => S (String.length (Json.encode (S level) x))) l))%nat).
    { apply list_sum_le. clear Hlen. induction l as [|x l IHl]; constructor.
      - inversion Hp; subst. inversion IH; subst. apply le_n_S. auto.
      - inversion Hp; subst. inversion IH; subst. auto. }
    lia.
  - cbn [plain] in Hp. apply andb_true_iff in Hp as [Hp _].
    apply forallb_Forall in Hp.
    cbn [Json.encode size]. norm_append. cbn [String.length].
    rewrite length_append.
    change (fun kv : key * value =>
              Json.encode_str (Json.key_str (fst kv)) ++ ": " ++ Json.encode (S level) (snd kv))
      with (member_text level).
    pose proof (length_items level (List.map (member_text level) d)) as Hlen.
    rewrite List.map_map in Hlen.
    assert (Hle : (list_sum (List.map (fun kv => S (size (snd kv))) d) <=
                   list_sum (List.map (fun kv => S (String.length (member_text level kv))) d))%nat).
    { apply list_sum_le. clear Hlen. induction d as [|kv d IHd]; constructor.
      - inversion Hp as [|? ? H1 H2]; subst. inversion IH as [|? ? H3 H4]; subst.
        apply andb_true_iff in H1 as [_ H1]. specialize (H3 H1 (S level)).
        unfold member_text. rewrite !length_append. lia.
      - inversion Hp; subst. inversion IH; subst. auto. }
    lia.
Qed.

(** Plain data reads back from its text. *)
Lemma loads_dumps (v : value) : plain v = true -> Json.loads (Json.dumps v) = Ok v.
Proof.
  intros Hp. unfold Json.loads, Json.dumps.
  pose proof (size_le_length v Hp 0%nat) as Hsize.
  pose proof (opens_value_encode 0 v Hp) as Hopen.
  pose proof (skip_ws_opens _ EmptyString Hopen) as Hskip.
  rewrite append_nil_r in Hskip. rewrite Hskip.
  pose proof (plain_reads_back v Hp 0%nat (S (2 * String.length (Json.encode 0 v))) EmptyString)
    as Hread.
  rewrite append_nil_r in Hread. rewrite Hread by (try reflexivity; lia).
  reflexivity.
Qed.

(** ** [save_json], then [load_json] *)




(** * Further properties *)

(** ** [load_monsters] on documents that are no list of mappings *)



Lemma load_loop_app (before data : list value) (monsters : list Monster.t) :
  Forall (fun r => is_dict r = true) before ->
  load_loop (before ++ data)%list monsters =
  load_loop data (monsters ++ omap entity before)%list.
Proof.
  intros H. revert monsters. induction H as [|r before Hr _ IH]; intros monsters.
  - simpl. rewrite app_nil_r. reflexivity.
  - destruct r as [| | | | | |d]; try discriminate.
    cbn [app]. rewrite load_loop_step, IH. f_equal.
    cbn [omap list_omap]. destruct (entity (VDict d)); simpl.
    + rewrite <- app_assoc. reflexivity.
    + rewrite app_nil_r. reflexivity.
Qed.

Lemma load_monsters_nonempty (fs : gmap string node) (r : value) (records : list value) :
  load_json fs MONSTERS_FILE = Ok (VList (r :: records)) ->
  load_monsters fs = load_loop (r :: records) [].
Proof. intros H. unfold load_monsters. rewrite H. reflexivity. Qed.

Lemma load_monsters_split (fs : gmap string node) (before : list value) (x : value)
    (behind : list value) :
  load_json fs MONSTERS_FILE = Ok (VList (before ++ x :: behind)%list) ->
  Forall (fun r => is_dict r = true) before ->
  load_monsters fs = load_loop (x :: behind) (omap entity before).
Proof.
  intros Hdoc Hbefore.
  destruct (before ++ x :: behind)%list as [|r records] eqn:E;
    [destruct before; discriminate|].
  rewrite (load_monsters_nonempty fs r records Hdoc), <- E.
  apply (load_loop_app before (x :: behind) [] Hbefore).
Qed.

(** X2.  An element of the document that is a number, a bool or null stops the
    whole load with a [TypeError], whatever the records before and after it:
    the test [field not in data] of the validation has no meaning on it. *)
Theorem load_monsters_scalar_element (fs : gmap string node)
    (before : list value) (x : value) (behind : list value) :
  load_json fs MONSTERS_FILE = Ok (VList (before ++ x :: behind)%list) ->
  Forall (fun r => is_dict r = true) before ->
  scalar x = true ->
  load_monsters fs = Raise TypeError.
Proof.
  intros Hdoc Hbefore Hx. rewrite (load_monsters_split fs before x behind Hdoc Hbefore).
  rewrite load_loop_cons. destruct x; try discriminate; reflexivity.
Qed.

Lemma load_monsters_scalar_element_witness :
  load_monsters {[ MONSTERS_FILE := Text "[{}, 1]" ]} = Raise TypeError.
Proof.
  apply (load_monsters_scalar_element _ [VDict []] (VInt 1) []).
  - vm_compute. reflexivity.
  - repeat constructor.
  - reflexivity.
Defined.

Lemma validate_holds_names (item : value) (b : bool) :
  holds_names item = Some b ->
  validate_required_fields item required_fields "Monster" = Ok b.
Proof.
  destruct item as [| | | |s|l|]; try discriminate; intros [= <-].
  - unfold validate_required_fields, required_fields. simpl.
    repeat (destruct (contains _ s); simpl; try reflexivity).
  - unfold validate_required_fields, required_fields. simpl.
    repeat (destruct (existsb _ l); simpl; try reflexivity).
Qed.

(** X3.  An element that is a str or a list is passed over without a trace
    when one of the six required names is not in it; when all six are in it,
    the load stops with an [AttributeError], raised by the handler of the
    failed construction. *)
Theorem load_monsters_text_element (fs : gmap string node)
    (before : list value) (x : value) (behind : list value) :
  load_json fs MONSTERS_FILE = Ok (VList (before ++ x :: behind)%list) ->
  Forall (fun r => is_dict r = true) before ->
  Forall (fun r => is_dict r = true) behind ->
  (holds_names x = Some false ->
     load_monsters fs = Ok (omap entity (before ++ behind)%list)) /\
  (holds_names x = Some true -> load_monsters fs = Raise AttributeError).
Proof.
  intros Hdoc Hbefore Hbehind.
  rewrite (load_monsters_split fs before x behind Hdoc Hbefore), load_loop_cons.
  split; intros Hx; rewrite (validate_holds_names x _ Hx); cbn [mbind res_bind negb].
  - rewrite (load_loop_records behind _ Hbehind), omap_app. reflexivity.
  - destruct x as [| | | |s|l|]; try discriminate; reflexivity.
Qed.

Lemma load_monsters_text_element_witness :
  load_monsters {[ MONSTERS_FILE := Text (dq "['id', {}]") ]} = Ok [] /\
  load_monsters {[ MONSTERS_FILE := Text (dq "['id name hp exp loot location']") ]}
    = Raise AttributeError.
Proof.
  split.
  - refine (proj1 (load_monsters_text_element
                     {[ MONSTERS_FILE := Text (dq "['id', {}]") ]}
                     [] (VStr "id") [VDict []] _ _ _) _).
    + vm_compute. reflexivity.
    + constructor.
    + repeat constructor.
    + reflexivity.
  - refine (proj2 (load_monsters_text_element
                     {[ MONSTERS_FILE := Text (dq "['id name hp exp loot location']") ]}
                     [] (VStr "id name hp exp loot location") [] _ _ _) _).
    + vm_compute. reflexivity.
    + constructor.
    + constructor.
    + reflexivity.
Defined.

(** ** [filter_monsters_by_location] and [search_monsters] *)


Lemma filter_narrows {A} (f g : A -> bool) (l : list A) :
  (forall x, f x = true -> g x = true) ->
  sublist (List.filter f l) (List.filter g l).
Proof.
  intros H. induction l as [|x l IH]; simpl; [constructor|].
  destruct (f x) eqn:Hf.
  - rewrite (H x Hf). apply sublist_skip, IH.
  - destruct (g x); [apply sublist_cons|]; exact IH.
Qed.

Lemma filter_all {A} (f : A -> bool) (l : list A) :
  (forall x, f x = true) -> List.filter f l = l.
Proof.
  intros H. induction l as [|x l IH]; simpl; [reflexivity|].
  rewrite H, IH. reflexivity.
Qed.

Lemma contains_empty (s : string) : contains EmptyString s = true.
Proof. destruct s; reflexivity. Qed.

Lemma search_monsters_of (fs : gmap string node) (q : string) (monsters : list Monster.t) :
  load_monsters fs = Ok monsters ->
  search_monsters fs q = Ok (List.filter (matches (lower q)) monsters).
Proof.
  intros Hload. unfold search_monsters. rewrite Hload. destruct q as [|c q]; simpl.
  - symmetry. f_equal. apply filter_all. intros m.
    unfold matches. simpl lower. rewrite !contains_empty. reflexivity.
  - reflexivity.
Qed.



(** X5.  For the empty location [filter_monsters_by_location] returns the
    loaded collection, and it raises what the load raises. *)
Theorem filter_monsters_by_location_empty (fs : gmap string node) :
  filter_monsters_by_location fs EmptyString = load_monsters fs.
Proof.
  unfold filter_monsters_by_location. destruct (load_monsters fs) as [monsters|e];
    [|reflexivity].
  cbn. f_equal. apply filter_all. intros m. apply contains_empty.
Qed.

(** X6.  What [filter_monsters_by_location] returns for a text,
    [search_monsters] returns for it too: the monsters found by location are
    among the monsters found by search, in the same order. *)
Theorem filter_monsters_by_location_in_search (fs : gmap string node) (q : string)
    (found : list Monster.t) :
  search_monsters fs q = Ok found ->
  exists located_there,
    filter_monsters_by_location fs q = Ok located_there /\
    sublist located_there found.
Proof.
  intros Hsearch.
  destruct (load_monsters fs) as [monsters|e] eqn:Hload.
  - rewrite (search_monsters_of fs q monsters Hload) in Hsearch.
    injection Hsearch as <-.
    eexists. split.
    + unfold filter_monsters_by_location. rewrite Hload. reflexivity.
    + apply filter_narrows. intros m H. unfold matches. rewrite H, orb_true_r.
      reflexivity.
  - unfold search_monsters in Hsearch. rewrite Hload in Hsearch.
    destruct (negb _) in Hsearch; discriminate.
Qed.

Lemma filter_monsters_by_location_in_search_witness :
  exists located_there,
    filter_monsters_by_location catalogue_fs "a" = Ok located_there /\
    sublist located_there [dragon; rat].
Proof.
  apply (filter_monsters_by_location_in_search catalogue_fs "a" [dragon; rat]).
  vm_compute. reflexivity.
Defined.

Lemma lower_empty (q : string) : lower q = EmptyString <-> q = EmptyString.
Proof. destruct q; simpl; split; congruence. Qed.

(** X7.  [search_monsters] does not tell apart two queries that are equal up
    to case. *)
Theorem search_monsters_case (fs : gmap string node) (q q' : string) :
  lower q = lower q' -> search_monsters fs q = search_monsters fs q'.
Proof.
  intros H. unfold search_monsters. rewrite H.
  destruct q as [|c q], q' as [|c' q']; try discriminate; reflexivity.
Qed.

Lemma search_monsters_case_witness :
  search_monsters catalogue_fs "RaT" = search_monsters catalogue_fs "rAt".
Proof. apply search_monsters_case. reflexivity. Defined.





(** ** [get_locations] *)

Lemma compare_refl (a : string) : String.compare a a = Eq.
Proof.
  pose proof (String.compare_antisym a a) as H.
  destruct (String.compare a a); simpl in H; congruence.
Qed.

Lemma compare_Lt_trans (a b c : string) :
  String.compare a b = Lt -> String.compare b c = Lt -> String.compare a c = Lt.
Proof.
  intros Hab Hbc.
  assert (Lab : String.le a b) by (unfold String.le, String.leb; rewrite Hab; reflexivity).
  assert (Lbc : String.le b c) by (unfold String.le, String.leb; rewrite Hbc; reflexivity).
  pose proof (transitivity Lab Lbc) as Lac.
  unfold String.le, String.leb in Lac.
  destruct (String.compare a c) eqn:Hac; [|reflexivity|destruct Lac].
  apply String.compare_eq_iff in Hac as ->.
  rewrite String.compare_antisym, Hbc in Hab. discriminate.
Qed.

Lemma compare_Gt (a b : string) : String.compare a b = Gt -> String.compare b a = Lt.
Proof. intros H. rewrite String.compare_antisym, H. reflexivity. Qed.

Lemma elem_of_insert_sorted (x y : string) (l : list string) :
  y ∈ insert_sorted x l <-> y = x \/ y ∈ l.
Proof.
  induction l as [|z l IH]; simpl.
  - rewrite list_elem_of_singleton, elem_of_nil. tauto.
  - destruct (String.compare x z) eqn:H.
    + apply String.compare_eq_iff in H as ->. rewrite elem_of_cons. tauto.
    + rewrite elem_of_cons. tauto.
    + rewrite !elem_of_cons, IH. tauto.
Qed.

Lemma ascending_insert_sorted (x : string) (l : list string) :
  ascending l -> ascending (insert_sorted x l).
Proof.
  unfold ascending. induction 1 as [|z l Hl IH Hz]; simpl.
  - repeat constructor.
  - destruct (String.compare x z) eqn:H.
    + constructor; assumption.
    + constructor; [constructor; assumption|]. constructor; [exact H|].
      eapply Forall_impl; [exact Hz|]. intros y Hy. exact (compare_Lt_trans x z y H Hy).
    + constructor; [exact IH|]. apply Forall_forall. intros y Hy.
      apply elem_of_insert_sorted in Hy as [->|Hy].
      * apply compare_Gt, H.
      * rewrite Forall_forall in Hz. apply Hz, Hy.
Qed.

Lemma ascending_sorted_set (l : list string) : ascending (sorted_set l).
Proof.
  induction l as [|x l IH]; simpl; [constructor | apply ascending_insert_sorted, IH].
Qed.

Lemma elem_of_sorted_set (x : string) (l : list string) : x ∈ sorted_set l <-> x ∈ l.
Proof.
  induction l as [|y l IH]; simpl; [reflexivity|].
  rewrite elem_of_insert_sorted, elem_of_cons, IH. reflexivity.
Qed.

Lemma ascending_NoDup (l : list string) : ascending l -> NoDup l.
Proof.
  induction 1 as [|x l Hl IH Hx]; constructor; [|exact IH].
  intros Hin. rewrite Forall_forall in Hx. specialize (Hx x Hin).
  rewrite compare_refl in Hx. discriminate.
Qed.

Lemma get_locations_of (fs : gmap string node) (monsters : list Monster.t) :
  load_monsters fs = Ok monsters ->
  get_locations fs = Ok (sorted_set (List.map Monster.location monsters)).
Proof. intros H. unfold get_locations. rewrite H. reflexivity. Qed.

(** X9.  [get_locations] returns the locations of the loaded monsters, each
    once, in strictly ascending order: a text is in the result exactly when it
    is the location of a loaded monster. *)
Theorem get_locations_sorted_unique (fs : gmap string node) (monsters : list Monster.t) :
  load_monsters fs = Ok monsters ->
  exists locations,
    get_locations fs = Ok locations /\
    ascending locations /\
    NoDup locations /\
    (forall x, x ∈ locations <-> exists m, m ∈ monsters /\ Monster.location m = x).
Proof.
  intros Hload. eexists. split; [apply get_locations_of, Hload|].
  split; [apply ascending_sorted_set|].
  split; [apply ascending_NoDup, ascending_sorted_set|].
  intros x. rewrite elem_of_sorted_set, list_elem_of_In, in_map_iff.
  split; intros (m & H1 & H2); exists m; rewrite ?list_elem_of_In in *; auto.
Qed.

Lemma get_locations_sorted_unique_witness :
  exists locations,
    get_locations catalogue_fs = Ok locations /\
    ascending locations /\
    NoDup locations /\
    (forall x, x ∈ locations <-> exists m, m ∈ [dragon; rat] /\ Monster.location m = x).
Proof.
  apply (get_locations_sorted_unique catalogue_fs [dragon; rat]).
  vm_compute. reflexivity.
Defined.

(** ** The monsters page *)

(** X10.  The location select box of the page opens with [All], and every
    location it offers after it lists at least one monster while the search
    box is empty. *)
Theorem page_locations_not_empty (fs : gmap string node) (options : list string) :
  MonstersPage.locations fs = Ok options ->
  exists offered,
    options = "All" :: offered /\
    forall location, location ∈ offered ->
      exists m listed, MonstersPage.monsters fs EmptyString location = Ok (m :: listed).
Proof.
  unfold MonstersPage.locations. intros H.
  destruct (load_monsters fs) as [monsters|e] eqn:Hload.
  - rewrite (get_locations_of fs monsters Hload) in H. injection H as <-.
    eexists. split; [reflexivity|]. intros location Hin.
    rewrite elem_of_sorted_set, list_elem_of_In, in_map_iff in Hin.
    destruct Hin as (m & Hm & Hin).
    unfold MonstersPage.monsters. simpl truthy. cbv iota. rewrite Hload. cbn [mbind res_bind].
    destruct (negb _).
    + assert (Hf : In m (List.filter
                 (fun m => bool_decide (Monster.location m = location)) monsters)).
      { apply filter_In. split; [exact Hin|]. apply bool_decide_eq_true_2, Hm. }
      destruct (List.filter _ monsters) as [|m' listed]; [destruct Hf|]. eauto.
    + destruct monsters as [|m' listed]; [destruct Hin|]. eauto.
  - unfold get_locations in H. rewrite Hload in H. discriminate.
Qed.

Lemma page_locations_not_empty_witness :
  exists offered,
    ["All"; "Dragon Lair"; "Thais"] = "All" :: offered /\
    forall location, location ∈ offered ->
      exists m listed,
        MonstersPage.monsters catalogue_fs EmptyString location = Ok (m :: listed).
Proof.
  apply (page_locations_not_empty catalogue_fs ["All"; "Dragon Lair"; "Thais"]).
  vm_compute. reflexivity.
Defined.



(** ** What the services raise *)





(** ** [get_rate] *)

Lemma load_server_info_mapping (fs : gmap string node) (kv : key * value)
    (d : list (key * value)) :
  load_json fs SERVER_INFO_FILE = Ok (VDict (kv :: d)) ->
  exists info,
    load_server_info fs = Ok (Some info) /\
    ServerInfo.rates info = default (VDict []) (lookup (kv :: d) "rates").
Proof.
  intros H. unfold load_server_info. rewrite H. eexists. split; reflexivity.
Qed.

(** X14.  On a document that is a mapping with an entry, [get_rate] goes by
    the value [rates] under the key [rates], the empty mapping when the key is
    absent: from a mapping it returns the value bound to the name and [None]
    for a name that is not bound; for any other [rates] that counts as false
    it returns [None]; for any other [rates] that counts as true, a list, a
    str or a number, it raises [AttributeError]. *)
Theorem get_rate_of_rates (fs : gmap string node) (rate_name : string)
    (kv : key * value) (d : list (key * value)) :
  load_json fs SERVER_INFO_FILE = Ok (VDict (kv :: d)) ->
  let rates := default (VDict []) (lookup (kv :: d) "rates") in
  (forall r, rates = VDict r -> get_rate fs rate_name = Ok (default VNone (lookup r rate_name))) /\
  (truthy rates = false -> get_rate fs rate_name = Ok VNone) /\
  (truthy rates = true -> is_dict rates = false ->
     get_rate fs rate_name = Raise AttributeError).
Proof.
  intros H rates.
  destruct (load_server_info_mapping fs kv d H) as (info & Hload & Hrates).
  fold rates in Hrates. unfold get_rate. rewrite Hload. cbn [mbind res_bind].
  rewrite Hrates. clearbody rates. repeat split.
  - intros r ->. destruct r as [|kv' r]; reflexivity.
  - intros ->. reflexivity.
  - intros -> Hd. destruct rates; try discriminate; reflexivity.
Qed.

Lemma get_rate_of_rates_witness :
  get_rate server_fs "exp" = Ok (VInt 5) /\ get_rate server_fs "loot" = Ok VNone.
Proof.
  pose proof (get_rate_of_rates server_fs "exp" (KStr "name", VNone)
                [(KStr "rates", VDict [(KStr "exp", VInt 5)])]
                ltac:(vm_compute; reflexivity)) as (Hexp & _).
  pose proof (get_rate_of_rates server_fs "loot" (KStr "name", VNone)
                [(KStr "rates", VDict [(KStr "exp", VInt 5)])]
                ltac:(vm_compute; reflexivity)) as (Hloot & _).
  split; [apply (Hexp [(KStr "exp", VInt 5)]) | apply (Hloot [(KStr "exp", VInt 5)])];
    reflexivity.
Defined.



(** ** [safe_int], [safe_float] and [safe_list] *)

(** X16.  [safe_int] raises on the two infinite floats and on nothing else,
    and what it raises there is [OverflowError]; on every other value it
    returns. *)
Theorem safe_int_raises_on_infinity (v : value) (default : Z) :
  (forall e, safe_int v default = Raise e ->
     e = OverflowError /\ exists sign, v = VFloat (S754_infinity sign)) /\
  ((forall sign, v <> VFloat (S754_infinity sign)) -> returns (safe_int v default)).
Proof.
  split.
  - intros e H. pose proof (safe_int_raises v default e H) as Hv.
    destruct v as [| | |[]| | |]; try discriminate Hv.
    split; [|eauto]. rewrite safe_int_cases in H. simpl in H. congruence.
  - intros H. apply safe_int_returns.
    destruct v as [| | |[]| | |]; try reflexivity. destruct (H s). reflexivity.
Qed.








(** X18.  [safe_float] raises nothing but [OverflowError], and only on an
    int; it returns a float as it is, and the default on [None], on a list
    and on a mapping. *)
Theorem safe_float_outcomes (v : value) (default : spec_float) :
  (forall e, safe_float v default = Raise e -> e = OverflowError /\ exists z, v = VInt z) /\
  (forall x, v = VFloat x -> safe_float v default = Ok x) /\
  (v = VNone \/ is_list v = true \/ is_dict v = true -> safe_float v default = Ok default).
Proof.
  repeat split.
  - destruct v as [|b|z|x|s|l|d]; simpl in H; try discriminate H.
    + unfold safe_float in H. simpl in H. unfold PyFloat.of_int in H.
      destruct (binary_normalize _ _ _ _ _); try discriminate H.
      simpl in H. congruence.
    + unfold safe_float in H. simpl in H. destruct (PyFloat.of_str s); discriminate H.
  - destruct v as [|b|z|x|s|l|d]; simpl in H; try discriminate H; eauto.
    unfold safe_float in H. simpl in H. destruct (PyFloat.of_str s); discriminate H.
  - intros x ->. reflexivity.
  - intros [->|[H|H]]; [reflexivity|..]; destruct v; try discriminate H; reflexivity.
Qed.

(** The int [2^1024] is beyond the floats, and [safe_float] raises on it. *)
Example safe_float_overflow : safe_float (VInt (2 ^ 1024)) (S754_zero false) = Raise OverflowError.
Proof. vm_compute. reflexivity. Qed.

(** X19.  With a default that is [None] or a list, [safe_list] always returns
    a list, and applying it again changes nothing. *)
Theorem safe_list_is_list (value default default' : Py.value) :
  default = VNone \/ is_list default = true ->
  is_list (safe_list value default) = true /\
  safe_list (safe_list value default) default' = safe_list value default.
Proof.
  intros [->|H].
  - destruct value; split; reflexivity.
  - destruct default; try discriminate H. destruct value; split; reflexivity.
Qed.

Lemma safe_list_is_list_witness :
  is_list (safe_list (VInt 7) VNone) = true /\
  safe_list (safe_list (VInt 7) VNone) VNone = safe_list (VInt 7) VNone.
Proof. apply (safe_list_is_list (VInt 7) VNone VNone). left. reflexivity. Defined.

(** ** [save_json] *)

(** X20.  [save_json] never raises.  It returns [True] exactly when the file
    can be opened for writing, and the file then holds the text of the data;
    it returns [False] otherwise and leaves the files as they are. *)
Theorem save_json_outcomes (fs : gmap string node) (path : string) (data : value) :
  exists ok : bool,
    (save_json fs path data).2 = Ok ok /\
    (ok = true <-> writable fs path) /\
    (save_json fs path data).1 =
      if ok then <[path := Text (Json.dumps data)]> fs else fs.
Proof.
  unfold save_json, write_text, writable.
  destruct (fs !! path) as [[s| |]|] eqn:E; cbn;
    [exists true | exists true | exists false | exists true];
    repeat split; try reflexivity; try discriminate; congruence.
Qed.

(** X21.  [save_json] touches no other file: what [load_json] reads at a
    path is the same before and after a save at another path. *)
Theorem save_json_frame (fs : gmap string node) (path other : string) (data : value) :
  other <> path ->
  load_json (save_json fs path data).1 other = load_json fs other.
Proof.
  intros Hne. destruct (save_json_outcomes fs path data) as (ok & _ & _ & ->).
  destruct ok; [|reflexivity].
  unfold load_json, path_exists, read_text.
  rewrite lookup_insert_ne by congruence. reflexivity.
Qed.

Lemma save_json_frame_witness :
  load_json (save_json catalogue_fs SERVER_INFO_FILE (VInt 1)).1 MONSTERS_FILE =
  load_json catalogue_fs MONSTERS_FILE.
Proof. apply save_json_frame. discriminate. Defined.

(** ** The keys of what [load_json] returns *)

Lemma elem_of_setitem_keys (d : list (key * value)) (k x : key) (v : value) :
  x ∈ List.map fst (Json.setitem d k v) <-> x = k \/ x ∈ List.map fst d.
Proof.
  induction d as [|[k' v'] d IH]; simpl.
  - rewrite list_elem_of_singleton, elem_of_nil. tauto.
  - destruct (bool_decide (k' = k)) eqn:E; simpl; rewrite !elem_of_cons.
    + apply bool_decide_eq_true_1 in E as ->. tauto.
    + rewrite IH. tauto.
Qed.

Lemma NoDup_setitem (d : list (key * value)) (k : key) (v : value) :
  NoDup (List.map fst d) -> NoDup (List.map fst (Json.setitem d k v)).
Proof.
  induction d as [|[k' v'] d IH]; simpl; intros H.
  - repeat constructor. apply not_elem_of_nil.
  - apply NoDup_cons in H as [Hk' Hd].
    destruct (bool_decide (k' = k)) eqn:E; simpl.
    + apply bool_decide_eq_true_1 in E as ->. apply NoDup_cons. auto.
    + apply bool_decide_eq_false_1 in E. apply NoDup_cons. split; [|auto].
      rewrite elem_of_setitem_keys. intros [->|H]; [congruence | auto].
Qed.

Lemma Forall_setitem (P : key * value -> Prop) (d : list (key * value)) (k : key) (v : value) :
  Forall P d -> P (k, v) -> Forall P (Json.setitem d k v).
Proof.
  intros Hd Hkv. induction Hd as [|[k' v'] d Hk' Hd IH]; simpl.
  - repeat constructor. exact Hkv.
  - destruct (bool_decide (k' = k)); constructor; auto.
Qed.

Lemma dict_of_pairs_invariant (P : value -> Prop) (ps : list (string * value)) :
  Forall (fun kv => P (snd kv)) ps ->
  Forall (fun kv => is_str_key (fst kv) = true /\ P (snd kv)) (Json.dict_of_pairs ps) /\
  NoDup (List.map fst (Json.dict_of_pairs ps)).
Proof.
  unfold Json.dict_of_pairs.
  assert (H : forall acc,
             Forall (fun kv => is_str_key (fst kv) = true /\ P (snd kv)) acc ->
             NoDup (List.map fst acc) ->
             Forall (fun kv => P (snd kv)) ps ->
             let d := fold_left (fun d kv => Json.setitem d (KStr (fst kv)) (snd kv)) ps acc in
             Forall (fun kv => is_str_key (fst kv) = true /\ P (snd kv)) d /\
             NoDup (List.map fst d)).
  { induction ps as [|[k v] ps IH]; intros acc Hacc Hnd Hps; simpl; [auto|].
    apply Forall_cons in Hps as [Hv Hps]. apply IH.
    - apply Forall_setitem; [exact Hacc | split; [reflexivity | exact Hv]].
    - apply NoDup_setitem, Hnd.
    - exact Hps. }
  intros Hps. apply (H []); [constructor | constructor | exact Hps].
Qed.

Lemma Forall_forallb {A} (f : A -> bool) (l : list A) :
  Forall (fun x => f x = true) l -> forallb f l = true.
Proof. induction 1; simpl; [reflexivity|]. rewrite H, IHForall. reflexivity. Qed.








(** ** The round trip of data with keys of any type *)

Lemma opens_value_float_free (level : nat) (v : value) :
  float_free v = true -> opens_value (Json.encode level v).
Proof.
  destruct v as [|[]|z|x|s|l|d]; intros Hp; try discriminate Hp;
    try (eexists _, _; split; [reflexivity|]; repeat split; discriminate).
  cbn [Json.encode]. destruct (string_of_Z_head z) as (c & t & -> & Hc).
  exists c, t. split; [reflexivity|].
  destruct Hc as [Hc| ->]; repeat split; try discriminate;
    try (intros ->; discriminate).
  destruct c as [[] [] [] [] [] [] [] []]; try discriminate Hc; reflexivity.
Qed.

Lemma scan_elements_reloaded (level : nat) (xs : list value) :
  Forall (fun x => float_free x = true /\ reads_as (S level) x (reloaded x)) xs ->
  forall x fuel rest,
    float_free x = true -> reads_as (S level) x (reloaded x) ->
    (list_sum (List.map (fun x => S (size x)) (x :: xs)) < fuel)%nat ->
    Json.scan_elements fuel
      (Json.encode (S level) x ++
       Json.sep_by (String "," (Json.newline_indent (S level)))
         (List.map (Json.encode (S level)) xs) ++
       Json.newline_indent level ++ String "]" rest) =
    Some (List.map reloaded (x :: xs), rest).
Proof.
  induction 1 as [|y ys [Hpy Hry] _ IH]; intros x fuel rest Hpx Hrx Hfuel;
    (destruct fuel as [|fuel]; [simpl in Hfuel; lia|]);
    simpl in Hfuel; cbn [Json.scan_elements List.map Json.sep_by].
  - rewrite append_nil_l.
    rewrite Hrx by (try apply ends_number_newline_indent; lia).
    cbn [mbind option_bind]. rewrite skip_ws_newline_indent. reflexivity.
  - rewrite !append_assoc, append_cons.
    rewrite Hrx by (try reflexivity; lia).
    cbn [mbind option_bind].
    change (Json.skip_ws (String "," ?s)) with (String "," s).
    change (Json.after "]" (String "," ?s)) with (@None string).
    change (Json.after "," (String "," ?s)) with (Some s).
    cbv beta iota zeta.
    rewrite skip_ws_newline_indent, skip_ws_opens by (apply opens_value_float_free; exact Hpy).
    rewrite IH by (try assumption; simpl; lia).
    reflexivity.
Qed.

Lemma scan_members_reloaded (level : nat) (kvs : list (key * value)) :
  Forall (fun kv => float_free (snd kv) = true /\
                    reads_as (S level) (snd kv) (reloaded (snd kv))) kvs ->
  forall k v fuel rest,
    float_free v = true -> reads_as (S level) v (reloaded v) ->
    (list_sum (List.map (fun kv => S (size (snd kv))) ((k, v) :: kvs)) < fuel)%nat ->
    Json.scan_members fuel
      (member_text level (k, v) ++
       Json.sep_by (String "," (Json.newline_indent (S level)))
         (List.map (member_text level) kvs) ++
       Json.newline_indent level ++ String "}" rest) =
    Some (List.map (fun kv => (Json.key_str (fst kv), reloaded (snd kv))) ((k, v) :: kvs), rest).
Proof.
  induction 1 as [|[k' v'] kvs (Hpv' & Hrv') _ IH]; intros k v fuel rest Hpv Hrv Hfuel;
    (destruct fuel as [|fuel]; [simpl in Hfuel; lia|]);
    simpl in Hfuel; cbn [List.map Json.sep_by];
    unfold member_text at 1, Json.encode_str; cbn [fst snd];
    norm_append;
    cbn [Json.scan_members]; rewrite bool_decide_eq_true_2 by reflexivity;
    rewrite scan_string_encode; cbn [mbind option_bind];
    change (Json.skip_ws (String ":" ?s)) with (String ":" s);
    change (Json.after ":" (String ":" ?s)) with (Some s);
    cbv beta iota;
    change (Json.skip_ws (String " " ?s)) with (Json.skip_ws s);
    rewrite skip_ws_opens by (apply opens_value_float_free; exact Hpv).
  - rewrite Hrv by (try apply ends_number_newline_indent; lia).
    cbn [mbind option_bind]. rewrite skip_ws_newline_indent. reflexivity.
  - rewrite Hrv by (try reflexivity; lia).
    cbn [mbind option_bind].
    change (Json.skip_ws (String "," ?s)) with (String "," s).
    change (Json.after "}" (String "," ?s)) with (@None string).
    change (Json.after "," (String "," ?s)) with (Some s).
    cbv beta iota zeta.
    rewrite skip_ws_newline_indent.
    assert (Hopen : forall s, Json.skip_ws (member_text level (k', v') ++ s) =
                              member_text level (k', v') ++ s) by reflexivity.
    rewrite Hopen.
    rewrite IH by (try assumption; simpl; simpl in Hfuel; lia).
    reflexivity.
Qed.

Lemma float_free_reads_as (v : value) :
  float_free v = true -> forall level, reads_as level v (reloaded v).
Proof.
  induction v as [|b|z|x|s|l IH|d IH] using value_ind';
    intros Hp level fuel rest Hfuel Hrest;
    (destruct fuel as [|fuel]; [lia|]); try discriminate Hp.
  - reflexivity.
  - destruct b; reflexivity.
  - apply scan_value_int. exact Hrest.
  - cbn [Json.encode Json.scan_value]. unfold Json.encode_str. norm_append.
    cbn [Json.scan_value]. rewrite bool_decide_eq_true_2 by reflexivity.
    rewrite scan_string_encode. reflexivity.
  - cbn [float_free] in Hp. apply forallb_Forall in Hp.
    assert (Hall : Forall (fun x => float_free x = true /\
                                    reads_as (S level) x (reloaded x)) l).
    { clear Hfuel. induction l as [|x l IHl]; constructor.
      - inversion Hp; subst. inversion IH; subst. auto.
      - inversion Hp; subst. inversion IH; subst. auto. }
    cbn [Json.encode reloaded]. destruct Hall as [|x xs [Hpx Hrx] Hxs].
    + reflexivity.
    + cbn [List.map Json.items]. norm_append. cbn [Json.scan_value].
      rewrite bool_decide_eq_false_2 by discriminate.
      rewrite bool_decide_eq_true_2 by reflexivity.
      cbv zeta. rewrite skip_ws_newline_indent.
      rewrite skip_ws_opens by (apply opens_value_float_free; exact Hpx).
      rewrite (proj1 (after_opens _ _ (opens_value_float_free (S level) x Hpx))).
      rewrite (scan_elements_reloaded level xs Hxs x fuel rest Hpx Hrx)
        by (simpl in Hfuel; simpl; lia).
      reflexivity.
  - cbn [float_free] in Hp. apply forallb_Forall in Hp.
    assert (Hall : Forall (fun kv => float_free (snd kv) = true /\
                                     reads_as (S level) (snd kv) (reloaded (snd kv))) d).
    { clear Hfuel. induction d as [|kv d IHd]; constructor.
      - inversion Hp; subst. inversion IH; subst. auto.
      - inversion Hp; subst. inversion IH; subst. auto. }
    cbn [Json.encode reloaded].
    change (fun kv : key * value =>
              Json.encode_str (Json.key_str (fst kv)) ++ ": " ++ Json.encode (S level) (snd kv))
      with (member_text level).
    destruct Hall as [|[k v] kvs (Hpv & Hrv) Hkvs].
    + reflexivity.
    + cbn [List.map Json.items]. norm_append. cbn [Json.scan_value].
      rewrite !bool_decide_eq_false_2 by discriminate.
      rewrite bool_decide_eq_true_2 by reflexivity.
      cbv zeta. rewrite skip_ws_newline_indent.
      assert (Hopen : forall s, Json.skip_ws (member_text level (k, v) ++ s) =
                                member_text level (k, v) ++ s) by reflexivity.
      assert (Hafter : forall s, Json.after "}" (member_text level (k, v) ++ s) = None)
        by reflexivity.
      rewrite Hopen, Hafter.
      rewrite (scan_members_reloaded level kvs Hkvs k v fuel rest Hpv Hrv)
        by (simpl in Hfuel; simpl; lia).
      reflexivity.
Qed.

Lemma size_le_length_float_free (v : value) :
  float_free v = true -> forall level, (size v <= String.length (Json.encode level v))%nat.
Proof.
  induction v as [|b|z|x|s|l IH|d IH] using value_ind'; intros Hp level;
    try discriminate Hp.
  - simpl. lia.
  - destruct b; simpl; lia.
  - cbn [Json.encode size]. destruct (string_of_Z_head z) as (c & t & -> & _). simpl. lia.
  - cbn [Json.encode size]. unfold Json.encode_str. simpl. lia.
  - cbn [float_free] in Hp. apply forallb_Forall in Hp.
    cbn [Json.encode size]. norm_append. cbn [String.length].
    rewrite length_append.
    pose proof (length_items level (List.map (Json.encode (S level)) l)) as Hlen.
    rewrite List.map_map in Hlen.
    assert (Hle : (list_sum (List.map (fun x => S (size x)) l) <=
                   list_sum (List.map (fun x => S (String.length (Json.encode (S level) x))) l))%nat).
    { apply list_sum_le. clear Hlen. induction l as [|x l IHl]; constructor.
      - inversion Hp; subst. inversion IH; subst. apply le_n_S. auto.
      - inversion Hp; subst. inversion IH; subst. auto. }
    lia.
  - cbn [float_free] in Hp. apply forallb_Forall in Hp.
    cbn [Json.encode size]. norm_append. cbn [String.length].
    rewrite length_append.
    change (fun kv : key * value =>
              Json.encode_str (Json.key_str (fst kv)) ++ ": " ++ Json.encode (S level) (snd kv))
      with (member_text level).
    pose proof (length_items level (List.map (member_text level) d)) as Hlen.
    rewrite List.map_map in Hlen.
    assert (Hle : (list_sum (List.map (fun kv => S (size (snd kv))) d) <=
                   list_sum (List.map (fun kv => S (String.length (member_text level kv))) d))%nat).
    { apply list_sum_le. clear Hlen. induction d as [|kv d IHd]; constructor.
      - inversion Hp as [|? ? H1 H2]; subst. inversion IH as [|? ? H3 H4]; subst.
        specialize (H3 H1 (S level)).
        unfold member_text. rewrite !length_append. lia.
      - inversion Hp; subst. inversion IH; subst. auto. }
    lia.
Qed.

Lemma loads_dumps_reloaded (v : value) :
  float_free v = true -> Json.loads (Json.dumps v) = Ok (reloaded v).
Proof.
  intros Hp. unfold Json.loads, Json.dumps.
  pose proof (size_le_length_float_free v Hp 0%nat) as Hsize.
  pose proof (opens_value_float_free 0 v Hp) as Hopen.
  pose proof (skip_ws_opens _ EmptyString Hopen) as Hskip.
  rewrite append_nil_r in Hskip. rewrite Hskip.
  pose proof (float_free_reads_as v Hp 0%nat (S (2 * String.length (Json.encode 0 v)))
                EmptyString) as Hread.
  rewrite append_nil_r in Hread. rewrite Hread by (try reflexivity; lia).
  reflexivity.
Qed.

Lemma save_json_writable (fs : gmap string node) (path : string) (data : value) :
  writable fs path ->
  save_json fs path data = (<[path := Text (Json.dumps data)]> fs, Ok true).
Proof.
  unfold writable, save_json, write_text. intros Hw.
  destruct (fs !! path) as [[| |]|]; try reflexivity. congruence.
Qed.

Lemma save_then_load_reloaded_text (fs : gmap string node) (path : string) (data : value) :
  writable fs path ->
  float_free data = true ->
  load_json (save_json fs path data).1 path = Ok (reloaded data).
Proof.
  intros Hw Hp. rewrite (save_json_writable fs path data Hw). cbn [fst].
  rewrite (load_json_text _ _ (Json.dumps data)) by apply lookup_insert_eq.
  rewrite (loads_dumps_reloaded data Hp). reflexivity.
Qed.



Example reloaded_sample :
  reloaded (VDict [(KInt 1, VStr "a"); (KStr "1", VStr "b"); (KNone, VList [])]) =
  VDict [(KStr "1", VStr "b"); (KStr "null", VList [])].
Proof. vm_compute. reflexivity. Qed.

Lemma reloaded_plain (v : value) : float_free v = true -> plain (reloaded v) = true.
Proof.
  induction v as [|b|z|x|s|l IH|d IH] using value_ind'; intros Hp;
    try discriminate Hp; try reflexivity.
  - cbn [float_free] in Hp. apply forallb_Forall in Hp.
    cbn [reloaded plain]. apply Forall_forallb.
    induction l as [|x l IHl]; [constructor|].
    inversion Hp; subst. inversion IH; subst. constructor; auto.
  - cbn [float_free] in Hp. apply forallb_Forall in Hp.
    cbn [reloaded plain].
    assert (Hps : Forall (fun kv : string * value => plain (snd kv) = true)
                    (List.map (fun kv => (Json.key_str (fst kv), reloaded (snd kv))) d)).
    { induction d as [|kv d IHd]; [constructor|].
      inversion Hp; subst. inversion IH; subst. constructor; auto. }
    destruct (dict_of_pairs_invariant (fun v => plain v = true) _ Hps) as [Hd Hnd].
    apply andb_true_iff. split.
    + apply Forall_forallb. eapply Forall_impl; [exact Hd|].
      intros kv [H1 H2]. rewrite H1, H2. reflexivity.
    + apply bool_decide_eq_true_2, Hnd.
Qed.

(** X24.  One trip settles the data: what [load_json] yields after a save of
    float-free data has str keys only, and saving it and loading it again
    yields it unchanged. *)
Theorem save_then_load_settles (fs : gmap string node) (path : string) (data : value) :
  writable fs path ->
  float_free data = true ->
  exists loaded,
    load_json (save_json fs path data).1 path = Ok loaded /\
    plain loaded = true /\
    load_json (save_json (save_json fs path data).1 path loaded).1 path = Ok loaded.
Proof.
  intros Hw Hp. exists (reloaded data).
  split; [apply save_then_load_reloaded_text; assumption|].
  pose proof (reloaded_plain data Hp) as Hplain. split; [exact Hplain|].
  rewrite (save_json_writable fs path data Hw). cbn [fst].
  rewrite save_json_writable by (unfold writable; rewrite lookup_insert_eq; discriminate).
  cbn [fst]. rewrite (load_json_text _ _ (Json.dumps (reloaded data))) by apply lookup_insert_eq.
  rewrite (loads_dumps _ Hplain). reflexivity.
Qed.

Lemma save_then_load_settles_witness :
  exists loaded,
    load_json (save_json ∅ "data.json" int_keyed).1 "data.json" = Ok loaded /\
    plain loaded = true /\
    load_json (save_json (save_json ∅ "data.json" int_keyed).1 "data.json" loaded).1
      "data.json" = Ok loaded.
Proof.
  apply save_then_load_settles.
  - unfold writable. rewrite lookup_empty. discriminate.
  - reflexivity.
Defined.






(** ** [validate_required_fields] *)

(** X26.  On a mapping, [validate_required_fields] returns [True] exactly
    when every required field is one of its keys, whatever the name of the
    entity; with no required field it returns [True] on every value; with a
    required field it raises [TypeError] on a number, a bool and [None]. *)
Theorem validate_required_fields_outcomes (data : value) (fields : list string)
    (entity_name : string) :
  (forall d, data = VDict d ->
     exists valid : bool,
       validate_required_fields data fields entity_name = Ok valid /\
       (valid = true <-> forall f, f ∈ fields -> is_Some (lookup d f))) /\
  (fields = [] -> validate_required_fields data fields entity_name = Ok true) /\
  (scalar data = true -> fields <> [] ->
     validate_required_fields data fields entity_name = Raise TypeError).
Proof.
  split; [|split].
  - intros d ->. exists (forallb (has_key d) fields). split; [apply validate_dict|].
    rewrite forallb_forall. unfold has_key. split.
    + intros H f Hf. apply (bool_decide_eq_true_1 _ (H f (proj1 (list_elem_of_In _ _) Hf))).
    + intros H f Hf. apply bool_decide_eq_true_2, H, list_elem_of_In, Hf.
  - intros ->. reflexivity.
  - intros Hs Hf. destruct fields as [|f fields]; [congruence|].
    destruct data; try discriminate Hs; reflexivity.
Qed.

(** ** [save_json], again *)



(** ** The page and the service *)

Lemma ci_substring_refl (s : string) : ci_substring s s.
Proof. exists EmptyString, s, EmptyString. rewrite append_nil_l, append_nil_r. auto. Qed.

(** X28.  The location filter of the page is the narrower one: with the
    search box empty, the monsters the page lists under a selected location
    other than [All] are among those [filter_monsters_by_location] returns
    for it, in the same order. *)
Theorem page_location_in_service (fs : gmap string node) (selected_location : string)
    (monsters : list Monster.t) :
  load_monsters fs = Ok monsters ->
  selected_location <> "All" ->
  exists listed located_there,
    MonstersPage.monsters fs EmptyString selected_location = Ok listed /\
    filter_monsters_by_location fs selected_location = Ok located_there /\
    sublist listed located_there.
Proof.
  intros Hload Hsel. unfold MonstersPage.monsters, filter_monsters_by_location.
  simpl truthy. cbv iota. rewrite Hload. cbn [mbind res_bind].
  rewrite bool_decide_eq_false_2 by exact Hsel. cbn [negb].
  eexists _, _. split; [reflexivity|]. split; [reflexivity|].
  apply filter_narrows. intros m Hm. apply bool_decide_eq_true_1 in Hm.
  apply contains_lower. rewrite Hm. apply ci_substring_refl.
Qed.

Lemma page_location_in_service_witness :
  exists listed located_there,
    MonstersPage.monsters catalogue_fs EmptyString "Thais" = Ok listed /\
    filter_monsters_by_location catalogue_fs "Thais" = Ok located_there /\
    sublist listed located_there.
Proof.
  apply (page_location_in_service catalogue_fs "Thais" [dragon; rat]).
  - vm_compute. reflexivity.
  - discriminate.
Defined.

(** X29.  The detail section of the page shows, for an option of its select
    box, the first listed monster with that id: a listed monster whose id
    repeats that of an earlier one is never shown, and for the empty id
    nothing is shown. *)
Theorem page_detail_first (monsters : list Monster.t) (monster_id : string) :
  monster_id ∈ MonstersPage.detail_options monsters ->
  (monster_id = EmptyString -> MonstersPage.detail monsters monster_id = None) /\
  (monster_id <> EmptyString ->
     exists before m behind,
       monsters = (before ++ m :: behind)%list /\
       Monster.id m = monster_id /\
       Forall (fun m' => Monster.id m' <> monster_id) before /\
       MonstersPage.detail monsters monster_id = Some m).
Proof.
  intros Hin. split; [intros ->; reflexivity|]. intros Hne.
  unfold MonstersPage.detail. destruct monster_id as [|c t]; [congruence|].
  cbn [truthy]. rewrite bool_decide_eq_false_2 by discriminate. cbn [negb].
  unfold MonstersPage.detail_options in Hin. clear Hne.
  induction monsters as [|m monsters IH]; [inversion Hin|].
  destruct (bool_decide_reflect (Monster.id m = String c t)) as [E|E].
  - exists [], m, monsters. cbn [app first_with_id].
    rewrite bool_decide_eq_true_2 by exact E. auto.
  - cbn [List.map] in Hin. apply elem_of_cons in Hin as [Hin|Hin]; [congruence|].
    destruct (IH Hin) as (before & m' & behind & -> & Hid & Hbefore & Hfirst).
    exists (m :: before), m', behind. cbn [app first_with_id].
    rewrite bool_decide_eq_false_2 by exact E. auto.
Qed.

Lemma page_detail_first_witness :
  exists before m behind,
    [dragon; rat] = (before ++ m :: behind)%list /\
    Monster.id m = "m1" /\
    Forall (fun m' => Monster.id m' <> "m1") before /\
    MonstersPage.detail [dragon; rat] "m1" = Some m.
Proof.
  apply (proj2 (page_detail_first [dragon; rat] "m1" ltac:(left))). discriminate.
Defined.

(** ** What [load_monsters] reads of a record *)

Lemma entity_agree (d d' : list (key * value)) :
  agree d d' -> entity (VDict d) = entity (VDict d').
Proof.
  intros H.
  assert (Hreq : has_required_keys (VDict d) = has_required_keys (VDict d')).
  { unfold has_required_keys, required_fields, has_key. cbn [forallb].
    rewrite !H by (unfold read_keys, required_fields; set_solver).
    reflexivity. }
  unfold entity. rewrite <- Hreq.
  destruct (has_required_keys (VDict d)) eqn:E; [|reflexivity].
  rewrite (build_monster_dict d E), (build_monster_dict d' (eq_sym Hreq)).
  unfold field. rewrite !H by (unfold read_keys, required_fields; set_solver).
  reflexivity.
Qed.

Lemma load_monsters_mappings (fs : gmap string node) (ds : list (list (key * value))) :
  load_json fs MONSTERS_FILE = Ok (VList (List.map VDict ds)) ->
  load_monsters fs = Ok (omap (fun d => entity (VDict d)) ds).
Proof.
  intros H. destruct ds as [|d ds].
  - unfold load_monsters. rewrite H. reflexivity.
  - rewrite (load_monsters_nonempty fs (VDict d) (List.map VDict ds) H).
    change (VDict d :: List.map VDict ds) with (List.map VDict (d :: ds)).
    rewrite load_loop_records.
    + cbn [app]. f_equal. generalize (d :: ds). intros l.
      induction l as [|x l IH]; [reflexivity|].
      cbn [List.map omap list_omap]. rewrite <- IH. reflexivity.
    + apply Forall_forall. intros r Hr. apply list_elem_of_In, in_map_iff in Hr as (x & <- & _).
      reflexivity.
Qed.

(** X30.  [load_monsters] reads seven keys of a record and nothing else: two
    documents whose records bind [id], [name], [hp], [exp], [loot],
    [location] and [difficulty] alike, record by record, load as the same
    monsters, whatever else the records hold. *)
Theorem load_monsters_reads_seven_keys (fs fs' : gmap string node)
    (ds ds' : list (list (key * value))) :
  load_json fs MONSTERS_FILE = Ok (VList (List.map VDict ds)) ->
  load_json fs' MONSTERS_FILE = Ok (VList (List.map VDict ds')) ->
  Forall2 agree ds ds' ->
  load_monsters fs = load_monsters fs'.
Proof.
  intros H H' Hagree.
  rewrite (load_monsters_mappings fs ds H), (load_monsters_mappings fs' ds' H').
  f_equal. clear H H'. induction Hagree as [|d d' ds ds' Hd _ IH]; [reflexivity|].
  cbn [omap list_omap]. rewrite (entity_agree d d' Hd), IH. reflexivity.
Qed.

Lemma load_monsters_reads_seven_keys_witness :
  load_monsters {[ MONSTERS_FILE := Text (dq
    "[{'id': 'm1', 'name': 'Rat', 'hp': 5, 'exp': 1, 'loot': 'Cheese', 'location': 'Thais', 'colour': 'grey'}]") ]} =
  load_monsters {[ MONSTERS_FILE := Text (dq
    "[{'location': 'Thais', 'loot': 'Cheese', 'exp': 1, 'hp': 5, 'name': 'Rat', 'id': 'm1'}]") ]}.
Proof.
  apply (load_monsters_reads_seven_keys _ _
           [[(KStr "id", VStr "m1"); (KStr "name", VStr "Rat"); (KStr "hp", VInt 5);
             (KStr "exp", VInt 1); (KStr "loot", VStr "Cheese"); (KStr "location", VStr "Thais");
             (KStr "colour", VStr "grey")]]
           [[(KStr "location", VStr "Thais"); (KStr "loot", VStr "Cheese"); (KStr "exp", VInt 1);
             (KStr "hp", VInt 5); (KStr "name", VStr "Rat"); (KStr "id", VStr "m1")]]).
  - vm_compute. reflexivity.
  - vm_compute. reflexivity.
  - constructor; [|constructor]. intros k Hk.
    unfold read_keys, required_fields in Hk. cbn [app] in Hk.
    repeat (apply elem_of_cons in Hk as [->|Hk]; [reflexivity|]).
    inversion Hk.
Defined.

(** * The fuel of the scanner *)

Lemma length_skip_ws (s : string) : (String.length (Json.skip_ws s) <= String.length s)%nat.
Proof.
  induction s as [|c s IH]; simpl; [lia|]. destruct (Json.is_ws c); simpl; lia.
Qed.

Lemma length_after (p s r : string) :
  Json.after p s = Some r -> (String.length r + String.length p = String.length s)%nat.
Proof.
  revert s. induction p as [|a p IH]; intros s; simpl.
  - intros [= ->]. lia.
  - destruct s as [|b s]; [discriminate|]. destruct (bool_decide (a = b)); [|discriminate].
    intros H. apply IH in H. simpl. lia.
Qed.

Lemma length_scan_pieces (n : nat) :
  forall s ps r, (String.length s <= n)%nat ->
    Json.scan_pieces s = Some (ps, r) -> (String.length r < String.length s)%nat.
Proof.
  induction n as [|n IH]; intros s ps r Hn; (destruct s as [|c s]; [discriminate|]);
    [simpl in Hn; lia|].
  simpl in Hn. cbn [Json.scan_pieces].
  destruct (bool_decide (c = quote2)); [intros [= _ <-]; simpl; lia|].
  destruct (bool_decide (c = backslash)).
  - destruct s as [|e s]; [discriminate|].
    destruct (bool_decide (e = "u"%char)).
    + destruct s as [|h1 [|h2 [|h3 [|h4 s]]]]; try discriminate.
      destruct (Json.hex_value h1); [|discriminate].
      destruct (Json.hex_value h2); [|discriminate].
      destruct (Json.hex_value h3); [|discriminate].
      destruct (Json.hex_value h4); [|discriminate].
      cbn [mbind option_bind].
      destruct (Json.scan_pieces s) as [[ps' r']|] eqn:E; [|discriminate].
      intros [= _ <-]. apply IH in E; simpl in *; lia.
    + destruct (Json.unescape e); [|discriminate]. cbn [mbind option_bind].
      destruct (Json.scan_pieces s) as [[ps' r']|] eqn:E; [|discriminate].
      intros [= _ <-]. apply IH in E; simpl in *; lia.
  - destruct (code c <? 32); [discriminate|].
    destruct (Json.scan_pieces s) as [[ps' r']|] eqn:E; [|discriminate].
    intros [= _ <-]. apply IH in E; simpl in *; lia.
Qed.

Lemma length_scan_string (s t r : string) :
  Json.scan_string s = Some (t, r) -> (String.length r < String.length s)%nat.
Proof.
  unfold Json.scan_string.
  destruct (Json.scan_pieces s) as [[ps r']|] eqn:E; [|discriminate].
  intros [= _ <-]. exact (length_scan_pieces _ s ps r' (le_n _) E).
Qed.

Lemma length_take_digits (s : string) :
  (String.length (Json.take_digits s).2 <= String.length s)%nat.
Proof.
  induction s as [|c s IH]; simpl; [lia|].
  destruct (is_digit c); [|simpl; lia].
  destruct (Json.take_digits s) as [ds r]. simpl in *. lia.
Qed.

Lemma length_scan_integer (s ip r : string) :
  Json.scan_integer s = Some (ip, r) -> (String.length r < String.length s)%nat.
Proof.
  unfold Json.scan_integer. destruct s as [|c s]; [discriminate|].
  destruct (bool_decide (c = "0"%char)); [intros [= _ <-]; simpl; lia|].
  destruct (is_digit c) eqn:Hc; [|discriminate].
  intros [= H]. pose proof (length_take_digits s) as Hlen.
  cbn [Json.take_digits] in H. rewrite Hc in H.
  destruct (Json.take_digits s) as [ds r']. injection H as _ <-. simpl in *. lia.
Qed.

Lemma length_scan_fraction (s : string) :
  (String.length (Json.scan_fraction s).2 <= String.length s)%nat.
Proof.
  unfold Json.scan_fraction. destruct (Json.after "." s) as [s'|] eqn:E; [|simpl; lia].
  apply length_after in E. pose proof (length_take_digits s') as Hlen.
  destruct (Json.take_digits s') as [[|d ds] r]; simpl in *; lia.
Qed.

Lemma length_scan_sign (s : string) :
  (String.length (Json.scan_sign s).2 <= String.length s)%nat.
Proof.
  unfold Json.scan_sign. destruct (Json.after "-" s) as [t|] eqn:E.
  - apply length_after in E. simpl in *. lia.
  - destruct (Json.after "+" s) as [t|] eqn:E'; [|simpl; lia].
    apply length_after in E'. simpl in *. lia.
Qed.

Lemma length_scan_exponent (s : string) :
  (String.length (Json.scan_exponent s).2 <= String.length s)%nat.
Proof.
  unfold Json.scan_exponent. destruct s as [|c s]; [simpl; lia|].
  destruct (_ || _); [|simpl; lia].
  pose proof (length_scan_sign s) as Hsign.
  destruct (Json.scan_sign s) as [neg s''].
  pose proof (length_take_digits s'') as Hlen.
  destruct (Json.take_digits s'') as [[|d ds] r]; simpl in *; lia.
Qed.

Lemma length_scan_magnitude (neg : bool) (s : string) (v : value) (r : string) :
  Json.scan_magnitude neg s = Some (v, r) -> (String.length r < String.length s)%nat.
Proof.
  unfold Json.scan_magnitude.
  destruct (Json.scan_integer s) as [[ip s2]|] eqn:E; [|discriminate].
  apply length_scan_integer in E. cbn [mbind option_bind].
  pose proof (length_scan_fraction s2) as Hf.
  destruct (Json.scan_fraction s2) as [frac s3].
  pose proof (length_scan_exponent s3) as He.
  destruct (Json.scan_exponent s3) as [ex s4].
  destruct frac, ex; intros [= _ <-]; simpl in *; lia.
Qed.

Lemma length_scan_constant (s : string) (v : value) (r : string) :
  Json.scan_constant s = Some (v, r) -> (String.length r < String.length s)%nat.
Proof.
  unfold Json.scan_constant, Json.scan_number.
  repeat match goal with
         | |- context [match Json.after ?p s with _ => _ end] =>
             let E := fresh "E" in
             destruct (Json.after p s) eqn:E; [apply length_after in E|]
         | |- context [match Json.scan_magnitude ?b ?t with _ => _ end] =>
             let E := fresh "E" in
             destruct (Json.scan_magnitude b t) as [[]|] eqn:E;
             [apply length_scan_magnitude in E|]
         end;
    intros [= _ <-]; simpl in *; lia.
Qed.

Lemma scan_value_S (fuel : nat) (s : string) :
  Json.scan_value (S fuel) s =
  match s with
  | EmptyString => None
  | String c s' =>
      if bool_decide (c = quote2) then
        '(t, r) ← Json.scan_string s'; Some (VStr t, r)
      else if bool_decide (c = "["%char) then
        match Json.after "]" (Json.skip_ws s') with
        | Some r => Some (VList [], r)
        | None => '(l, r) ← Json.scan_elements fuel (Json.skip_ws s'); Some (VList l, r)
        end
      else if bool_decide (c = "{"%char) then
        match Json.after "}" (Json.skip_ws s') with
        | Some r => Some (VDict [], r)
        | None =>
            '(ps, r) ← Json.scan_members fuel (Json.skip_ws s');
            Some (VDict (Json.dict_of_pairs ps), r)
        end
      else Json.scan_constant s
  end.
Proof. reflexivity. Qed.

Lemma scan_elements_S (fuel : nat) (s : string) :
  Json.scan_elements (S fuel) s =
  match Json.scan_value fuel s with
  | Some (v, r) =>
      match Json.after "]" (Json.skip_ws r) with
      | Some r' => Some ([v], r')
      | None =>
          match Json.after "," (Json.skip_ws r) with
          | Some r' =>
              '(l, r'') ← Json.scan_elements fuel (Json.skip_ws r'); Some (v :: l, r'')
          | None => None
          end
      end
  | None => None
  end.
Proof. cbn [Json.scan_elements]. destruct (Json.scan_value fuel s) as [[v r]|]; reflexivity. Qed.

Lemma scan_members_S (fuel : nat) (s : string) :
  Json.scan_members (S fuel) s =
  match s with
  | String c s' =>
      if bool_decide (c = quote2) then
        match Json.scan_string s' with
        | Some (k, r) =>
            match Json.after ":" (Json.skip_ws r) with
            | Some r1 =>
                match Json.scan_value fuel (Json.skip_ws r1) with
                | Some (v, r2) =>
                    match Json.after "}" (Json.skip_ws r2) with
                    | Some r3 => Some ([(k, v)], r3)
                    | None =>
                        match Json.after "," (Json.skip_ws r2) with
                        | Some r3 =>
                            '(ps, r4) ← Json.scan_members fuel (Json.skip_ws r3);
                            Some ((k, v) :: ps, r4)
                        | None => None
                        end
                    end
                | None => None
                end
            | None => None
            end
        | None => None
        end
      else None
  | EmptyString => None
  end.
Proof.
  cbn [Json.scan_members]. destruct s as [|c s']; [reflexivity|].
  destruct (bool_decide (c = quote2)); [|reflexivity].
  destruct (Json.scan_string s') as [[k r]|]; [|reflexivity]. cbn [mbind option_bind].
  destruct (Json.after ":" (Json.skip_ws r)) as [r1|]; [|reflexivity].
  destruct (Json.scan_value fuel (Json.skip_ws r1)) as [[v r2]|]; reflexivity.
Qed.

(** What the scanner leaves is shorter than what it was given. *)
Lemma length_scan (fuel : nat) :
  (forall s v r, Json.scan_value fuel s = Some (v, r) ->
     (String.length r < String.length s)%nat) /\
  (forall s l r, Json.scan_elements fuel s = Some (l, r) ->
     (String.length r < String.length s)%nat) /\
  (forall s ps r, Json.scan_members fuel s = Some (ps, r) ->
     (String.length r < String.length s)%nat).
Proof.
  induction fuel as [|fuel (IHv & IHl & IHm)]; [repeat split; discriminate|].
  repeat split.
  - intros s v r. rewrite scan_value_S. destruct s as [|c s]; [discriminate|].
    pose proof (length_skip_ws s) as Hws.
    destruct (bool_decide (c = quote2)).
    { destruct (Json.scan_string s) as [[t r']|] eqn:E; [|discriminate].
      apply length_scan_string in E. intros [= _ <-]. simpl. lia. }
    destruct (bool_decide (c = "["%char)).
    { destruct (Json.after "]" (Json.skip_ws s)) eqn:Ea.
      - apply length_after in Ea. intros [= _ <-]. simpl in *. lia.
      - destruct (Json.scan_elements fuel (Json.skip_ws s)) as [[l r']|] eqn:E; [|discriminate].
        apply IHl in E. intros [= _ <-]. simpl. lia. }
    destruct (bool_decide (c = "{"%char)).
    { destruct (Json.after "}" (Json.skip_ws s)) eqn:Ea.
      - apply length_after in Ea. intros [= _ <-]. simpl in *. lia.
      - destruct (Json.scan_members fuel (Json.skip_ws s)) as [[ps r']|] eqn:E; [|discriminate].
        apply IHm in E. intros [= _ <-]. simpl. lia. }
    apply length_scan_constant.
  - intros s l r. rewrite scan_elements_S.
    destruct (Json.scan_value fuel s) as [[v r1]|] eqn:Ev; [|discriminate].
    apply IHv in Ev. pose proof (length_skip_ws r1) as Hws.
    destruct (Json.after "]" (Json.skip_ws r1)) eqn:Ea.
    { apply length_after in Ea. intros [= _ <-]. simpl in *. lia. }
    destruct (Json.after "," (Json.skip_ws r1)) as [r2|] eqn:Ec; [|discriminate].
    apply length_after in Ec. pose proof (length_skip_ws r2) as Hws2.
    destruct (Json.scan_elements fuel (Json.skip_ws r2)) as [[l' r3]|] eqn:El; [|discriminate].
    apply IHl in El. intros [= _ <-]. simpl in *. lia.
  - intros s ps r. rewrite scan_members_S. destruct s as [|c s]; [discriminate|].
    destruct (bool_decide (c = quote2)); [|discriminate].
    destruct (Json.scan_string s) as [[k r0]|] eqn:Es; [|discriminate].
    apply length_scan_string in Es. pose proof (length_skip_ws r0) as Hws0.
    destruct (Json.after ":" (Json.skip_ws r0)) as [r1|] eqn:Ec; [|discriminate].
    apply length_after in Ec. pose proof (length_skip_ws r1) as Hws1.
    destruct (Json.scan_value fuel (Json.skip_ws r1)) as [[v r2]|] eqn:Ev; [|discriminate].
    apply IHv in Ev. pose proof (length_skip_ws r2) as Hws2.
    destruct (Json.after "}" (Json.skip_ws r2)) eqn:Ea.
    { apply length_after in Ea. intros [= _ <-]. simpl in *. lia. }
    destruct (Json.after "," (Json.skip_ws r2)) as [r3|] eqn:Ec2; [|discriminate].
    apply length_after in Ec2. pose proof (length_skip_ws r3) as Hws3.
    destruct (Json.scan_members fuel (Json.skip_ws r3)) as [[ps' r4]|] eqn:Em; [|discriminate].
    apply IHm in Em. intros [= _ <-]. simpl in *. lia.
Qed.

(** Past twice the length of the text, one more unit of fuel changes nothing. *)
Lemma scan_fuel_S (fuel : nat) :
  (forall s, (2 * String.length s < fuel)%nat ->
     Json.scan_value (S fuel) s = Json.scan_value fuel s) /\
  (forall s, (2 * String.length s + 1 < fuel)%nat ->
     Json.scan_elements (S fuel) s = Json.scan_elements fuel s) /\
  (forall s, (2 * String.length s + 1 < fuel)%nat ->
     Json.scan_members (S fuel) s = Json.scan_members fuel s).
Proof.
  induction fuel as [|fuel (IHv & IHl & IHm)]; [repeat split; intros s H; lia|].
  repeat split.
  - intros s H. rewrite (scan_value_S (S fuel)), (scan_value_S fuel).
    destruct s as [|c s]; [reflexivity|].
    pose proof (length_skip_ws s) as Hws. simpl in H.
    rewrite IHl, IHm by lia. reflexivity.
  - intros s H. rewrite (scan_elements_S (S fuel)), (scan_elements_S fuel).
    rewrite IHv by lia.
    destruct (Json.scan_value fuel s) as [[v r]|] eqn:Ev; [|reflexivity].
    apply (proj1 (length_scan fuel)) in Ev. pose proof (length_skip_ws r) as Hws.
    destruct (Json.after "]" (Json.skip_ws r)); [reflexivity|].
    destruct (Json.after "," (Json.skip_ws r)) as [r'|] eqn:Ec; [|reflexivity].
    apply length_after in Ec. pose proof (length_skip_ws r') as Hws'. simpl in Ec.
    rewrite IHl by lia. reflexivity.
  - intros s H. rewrite (scan_members_S (S fuel)), (scan_members_S fuel).
    destruct s as [|c s]; [reflexivity|]. simpl in H.
    destruct (bool_decide (c = quote2)); [|reflexivity].
    destruct (Json.scan_string s) as [[k r0]|] eqn:Es; [|reflexivity].
    apply length_scan_string in Es. pose proof (length_skip_ws r0) as Hws0.
    destruct (Json.after ":" (Json.skip_ws r0)) as [r1|] eqn:Ec; [|reflexivity].
    apply length_after in Ec. pose proof (length_skip_ws r1) as Hws1. simpl in Ec.
    rewrite IHv by lia.
    destruct (Json.scan_value fuel (Json.skip_ws r1)) as [[v r2]|] eqn:Ev; [|reflexivity].
    apply (proj1 (length_scan fuel)) in Ev. pose proof (length_skip_ws r2) as Hws2.
    destruct (Json.after "}" (Json.skip_ws r2)); [reflexivity|].
    destruct (Json.after "," (Json.skip_ws r2)) as [r3|] eqn:Ec2; [|reflexivity].
    apply length_after in Ec2. pose proof (length_skip_ws r3) as Hws3. simpl in Ec2.
    rewrite IHm by lia. reflexivity.
Qed.

(** The fuel [loads] gives the scanner is enough for every text: with any
    fuel beyond it the scanner does the same, so no text fails to load for
    want of fuel. *)
Lemma loads_fuel (text : string) (more : nat) :
  Json.scan_value (more + S (2 * String.length text)) (Json.skip_ws text) =
  Json.scan_value (S (2 * String.length text)) (Json.skip_ws text).
Proof.
  pose proof (length_skip_ws text) as Hws.
  induction more as [|more IH]; [reflexivity|].
  cbn [Nat.add]. rewrite (proj1 (scan_fuel_S _)) by lia. exact IH.
Qed.
